(** * al-kitab: region extraction, text fitting and two-phase rendering

    A shallow embedding of [main.py].  Python [str] values are sequences of
    Unicode code points, Python [int]s are unbounded integers, exceptions are
    an explicit outcome, and the image canvas and the console are a log of
    the operations issued on them. *)

From Stdlib Require Import List ZArith NArith Lia Bool String Ascii.
Import ListNotations.
Local Open Scope Z_scope.

(** ** Python strings *)

Module PyStr.

(** A [str] is a list of code points. *)
Definition char := N.
Definition pystr := list char.

Definition of_ascii (s : string) : pystr :=
  map N_of_ascii (list_ascii_of_string s).

Definition space : char := 32%N.

(** [len(s)] *)
Definition len (s : pystr) : Z := Z.of_nat (List.length s).

Definition in_range (lo hi c : N) : bool := (N.leb lo c && N.leb c hi)%bool.

(** The characters [str.strip], [str.split] and [str.isspace] treat as
    whitespace: the code points of CPython's [_PyUnicode_IsWhitespace]. *)
Definition isspace_char (c : char) : bool :=
  (in_range 9 13 c || in_range 28 32 c || N.eqb c 133 || N.eqb c 160
   || N.eqb c 5760 || in_range 8192 8202 c || N.eqb c 8232 || N.eqb c 8233
   || N.eqb c 8239 || N.eqb c 8287 || N.eqb c 12288)%bool.

Fixpoint lstrip (s : pystr) : pystr :=
  match s with
  | [] => []
  | c :: t => if isspace_char c then lstrip t else s
  end.

Definition rstrip (s : pystr) : pystr := rev (lstrip (rev s)).

(** [s.strip()] *)
Definition strip (s : pystr) : pystr := rstrip (lstrip s).

(** [s.isspace()]: at least one character and all of them whitespace. *)
Definition isspace (s : pystr) : bool :=
  (negb (Nat.eqb (List.length s) 0) && forallb isspace_char s)%bool.

(** Truthiness of a string: [not s] is [negb (truthy s)]. *)
Definition truthy (s : pystr) : bool :=
  match s with [] => false | _ :: _ => true end.

(** [s.split()]: maximal runs of non-whitespace characters.  [cur] is the
    word being read. *)
Fixpoint split_from (cur s : pystr) : list pystr :=
  match s with
  | [] => match cur with [] => [] | _ => [cur] end
  | c :: t =>
      if isspace_char c
      then match cur with [] => split_from [] t | _ => cur :: split_from [] t end
      else split_from (cur ++ [c]) t
  end.

Definition split (s : pystr) : list pystr := split_from [] s.

(** [sep.join(parts)] *)
Fixpoint join (sep : pystr) (parts : list pystr) : pystr :=
  match parts with
  | [] => []
  | [p] => p
  | p :: rest => p ++ sep ++ join sep rest
  end.

Fixpoint starts_with (p s : pystr) : bool :=
  match p, s with
  | [], _ => true
  | _ :: _, [] => false
  | a :: p', b :: s' => (N.eqb a b && starts_with p' s')%bool
  end.

(** [p in s] *)
Fixpoint contains (p s : pystr) : bool :=
  (starts_with p s || match s with [] => false | _ :: t => contains p t end)%bool.

(** [re.sub(r'[A-Za-z]', '', s)] *)
Definition is_ascii_letter (c : char) : bool :=
  (in_range 65 90 c || in_range 97 122 c)%bool.

Definition remove_ascii_letters (s : pystr) : pystr :=
  filter (fun c => negb (is_ascii_letter c)) s.

(** [str.lower] restricted to ASCII text, where it maps [A-Z] to [a-z]
    and leaves every other character alone. *)
Definition ascii_lower_char (c : char) : char :=
  if in_range 65 90 c then (c + 32)%N else c.

Definition ascii_lower (s : pystr) : pystr := map ascii_lower_char s.

End PyStr.
Import PyStr.

(** ** Outcomes *)

Inductive exn : Type :=
| ValueError            (* [max] or [min] of an empty list *)
| OcrError (msg : pystr) (* [Exception("Google OCR error: ...")] *)
| OSError               (* [ImageFont.truetype] cannot open the font *)
| FuelExhausted.        (* the loop bound of the model was reached: no
                           Python exception *)

Inductive outcome (A : Type) : Type :=
| Ok (a : A)
| Raise (e : exn).
Arguments Ok {A} a.
Arguments Raise {A} e.

(** A [for] loop whose body may raise: the first exception ends the loop. *)
Fixpoint for_each {A S : Type} (l : list A) (body : A -> S -> outcome S)
  (s : S) : outcome S :=
  match l with
  | [] => Ok s
  | a :: rest =>
      match body a s with
      | Ok s' => for_each rest body s'
      | Raise e => Raise e
      end
  end.

(** [max(l)] and [min(l)] on a list of integers. *)
Definition py_max (l : list Z) : outcome Z :=
  match l with
  | [] => Raise ValueError
  | x :: t => Ok (fold_left Z.max t x)
  end.

Definition py_min (l : list Z) : outcome Z :=
  match l with
  | [] => Raise ValueError
  | x :: t => Ok (fold_left Z.min t x)
  end.

(** ** The OCR annotation tree and [google_ocr] *)

Record vertex := { vx : Z; vy : Z }.
Record symbol := { symbol_text : pystr }.
Record word := { symbols : list symbol; bounding_box : list vertex }.
Record paragraph := { words : list word }.
Record block := { paragraphs : list paragraph }.
Record page := { blocks : list block }.
Record response := { error_message : pystr; pages : list page }.

(** One entry of [sentence_boxes]: [{"text": ..., "bbox": [x0, y0, x1, y1]}]. *)
Record region := { text : pystr; bbox : Z * Z * Z * Z }.

Section Extractor.

(** [str.isalnum] on one character, from the Unicode database. *)
Variable isalnum : char -> bool.

(** [\w] *)
Definition word_char (c : char) : bool := (isalnum c || N.eqb c 95)%bool.

(** [re.search(r'\w', s)] finds a match. *)
Definition re_search_w (s : pystr) : bool := existsb word_char s.

(** The body of [for word in paragraph.words], on the three accumulators. *)
Definition word_step (acc : pystr * list Z * list Z) (w : word)
  : pystr * list Z * list Z :=
  let '(sentence_text, x_coords, y_coords) := acc in
  let word_text := List.concat (map symbol_text (symbols w)) in
  (sentence_text ++ word_text ++ [space],
   x_coords ++ map vx (bounding_box w),
   y_coords ++ map vy (bounding_box w)).

Definition scan_words (p : paragraph) : pystr * list Z * list Z :=
  fold_left word_step (words p) ([], [], []).

(** The body of [for paragraph in block.paragraphs]: [Ok None] is a
    [continue], [Ok (Some r)] appends [r]. *)
Definition paragraph_region (p : paragraph) : outcome (option region) :=
  let '(sentence_text, x_coords, y_coords) := scan_words p in
  let clean_text := strip sentence_text in
  match py_max x_coords with Raise e => Raise e | Ok max_x =>
  match py_min x_coords with Raise e => Raise e | Ok min_x =>
  match py_max y_coords with Raise e => Raise e | Ok max_y =>
  match py_min y_coords with Raise e => Raise e | Ok min_y =>
    let area := (max_x - min_x) * (max_y - min_y) in
    if ((len clean_text <=? 6) && (area >? 40000))%bool then Ok None
    else if negb (re_search_w clean_text) then Ok None
    else Ok (Some {| text := clean_text;
                     bbox := (min_x, min_y, max_x, max_y) |})
  end end end end.

Definition paragraph_body (p : paragraph) (sentence_boxes : list region)
  : outcome (list region) :=
  match paragraph_region p with
  | Raise e => Raise e
  | Ok None => Ok sentence_boxes
  | Ok (Some r) => Ok (sentence_boxes ++ [r])
  end.

Definition google_ocr (resp : response) : outcome (list region) :=
  if truthy (error_message resp) then Raise (OcrError (error_message resp))
  else
    for_each (pages resp) (fun page =>
      for_each (blocks page) (fun block =>
        for_each (paragraphs block) paragraph_body)) [].

(** *** What the specification says about a paragraph *)

Definition all_paragraphs (resp : response) : list paragraph :=
  flat_map (fun pg => flat_map paragraphs (blocks pg)) (pages resp).

Definition word_tokens (p : paragraph) : list pystr :=
  map (fun w => List.concat (map symbol_text (symbols w))) (words p).

Definition all_vertices (p : paragraph) : list vertex :=
  flat_map bounding_box (words p).

(** The word tokens joined by single spaces, trimmed. *)
Definition spec_text (p : paragraph) : pystr :=
  strip (join [space] (word_tokens p)).

Definition is_min (m : Z) (l : list Z) : Prop :=
  In m l /\ forall x, In x l -> m <= x.

Definition is_max (m : Z) (l : list Z) : Prop :=
  In m l /\ forall x, In x l -> x <= m.

(** Least and greatest element, for the lists that have one. *)
Definition least (l : list Z) : Z := fold_right Z.min (hd 0 l) l.
Definition greatest (l : list Z) : Z := fold_right Z.max (hd 0 l) l.

Definition spec_bbox (p : paragraph) : Z * Z * Z * Z :=
  let xs := map vx (all_vertices p) in
  let ys := map vy (all_vertices p) in
  (least xs, least ys, greatest xs, greatest ys).

Definition bbox_area (b : Z * Z * Z * Z) : Z :=
  let '(x0, y0, x1, y1) := b in (x1 - x0) * (y1 - y0).

Definition spec_region (p : paragraph) : region :=
  {| text := spec_text p; bbox := spec_bbox p |}.

(** The noise filter of the specification: a paragraph is kept unless its
    text is short over a large area, or it has no word character. *)
Definition spec_kept (p : paragraph) : bool :=
  (negb ((len (spec_text p) <=? 6) && (bbox_area (spec_bbox p) >? 40000))
   && existsb word_char (spec_text p))%bool.

End Extractor.

(** ** Fonts, the translation service and the canvas *)

(** [ImageFont.truetype(font_path, size)] or [ImageFont.load_default()]. *)
Inductive font : Type :=
| TrueType (size : Z)
| DefaultFont.

(** What the [try] body of [translate_openl] does: the service answers with
    [content], or anything in the body raises. *)
Inductive api_result : Type :=
| Responded (content : pystr)
| ApiFailure.

(** The collaborators the renderer calls: Unicode lower-casing, the chat
    service (its answer may change from call to call), the font file, the
    text measurement of [draw.textbbox((0, 0), s, font=font)] (components
    [2] and [3]) and [get_display(arabic_reshaper.reshape(line))]. *)
Record environment := {
  lower : pystr -> pystr;
  chat_completion : nat -> pystr -> api_result;
  truetype_loads : Z -> bool;
  text_right : font -> pystr -> Z;
  text_bottom : font -> pystr -> Z;
  reshape_display : pystr -> pystr
}.

Inductive color : Type := White | Black.

Inductive canvas_op : Type :=
| Rectangle (x0 y0 x1 y1 : Z) (fill : color)
| Text (x y : Z) (line : pystr) (fill : color) (f : font).

Inductive message : Type :=
| ErrorTranslating (text : pystr)
| SkippingInvalid (translated : pystr)
| EmptyAfterRemovingEnglish
| TranslatedAndSaved.

(** The state the renderer acts on: the operations painted so far on the
    image being processed, the console, and the number of service calls. *)
Record world := {
  canvas : list canvas_op;
  console : list message;
  api_calls : nat
}.

Module Run.

Definition M (A : Type) : Type := world -> outcome A * world.

Definition ret {A} (a : A) : M A := fun w => (Ok a, w).

Definition bind {A B} (m : M A) (k : A -> M B) : M B :=
  fun w => match m w with
           | (Ok a, w') => k a w'
           | (Raise e, w') => (Raise e, w')
           end.

Definition lift {A} (o : outcome A) : M A := fun w => (o, w).

Definition paint (op : canvas_op) : M unit :=
  fun w => (Ok tt, {| canvas := canvas w ++ [op];
                      console := console w;
                      api_calls := api_calls w |}).

Definition print (m : message) : M unit :=
  fun w => (Ok tt, {| canvas := canvas w;
                      console := console w ++ [m];
                      api_calls := api_calls w |}).

(** [Image.open(image_path).convert("RGB")]: a canvas nothing was painted on. *)
Definition open_image : M unit :=
  fun w => (Ok tt, {| canvas := [];
                      console := console w;
                      api_calls := api_calls w |}).

Definition call_service (env : environment) (text : pystr) : M api_result :=
  fun w => (Ok (chat_completion env (api_calls w) text),
            {| canvas := canvas w;
               console := console w;
               api_calls := S (api_calls w) |}).

(** [for a in l: body a] *)
Fixpoint iter {A} (l : list A) (body : A -> M unit) : M unit :=
  match l with
  | [] => ret tt
  | a :: rest => bind (body a) (fun _ => iter rest body)
  end.

End Run.
Import Run.

Notation "x <- m ;; k" := (bind m (fun x => k))
  (at level 61, m at next level, right associativity).
Notation "m ;;; k" := (bind m (fun _ => k))
  (at level 61, right associativity).

Section Renderer.

Variable env : environment.

(** *** [translate_openl] *)

Definition translate_openl (text : pystr) : M pystr :=
  r <- call_service env text ;;
  match r with
  | Responded content => ret (strip content)
  | ApiFailure => print (ErrorTranslating text) ;;; ret text
  end.

(** *** [wrap_text] *)

(** The body of [for word in words], on [(lines, current_line)]. *)
Definition wrap_step (f : font) (max_width : Z)
  (st : list pystr * pystr) (word : pystr) : list pystr * pystr :=
  let '(lines, current_line) := st in
  let test_line :=
    if negb (truthy current_line) then word
    else current_line ++ [space] ++ word in
  let width := text_right env f test_line in
  if width <=? max_width then (lines, test_line)
  else (lines ++ [current_line], word).

Definition wrap_finish (st : list pystr * pystr) : list pystr :=
  let '(lines, current_line) := st in
  if truthy current_line then lines ++ [current_line] else lines.

Definition wrap_text (text : pystr) (f : font) (max_width : Z) : list pystr :=
  let words := split text in
  wrap_finish (fold_left (wrap_step f max_width) words ([], [])).

(** *** The sizing search *)

Record layout := {
  chosen : font;
  wrapped_lines : list pystr;
  reshaped_lines : list pystr;
  line_height : Z;
  total_height : Z
}.

Definition min_font_size : Z := 18.

(** Wrapping, reshaping and measuring at one font: the four assignments
    made in the loop body and again after it. *)
Definition measure_block (f : font) (translated_text : pystr) (max_width : Z)
  : layout :=
  let wrapped := wrap_text translated_text f max_width in
  let reshaped := map (reshape_display env) wrapped in
  let lh := text_bottom env f (of_ascii "Test") in
  let n := Z.of_nat (List.length reshaped) in
  {| chosen := f;
     wrapped_lines := wrapped;
     reshaped_lines := reshaped;
     line_height := lh;
     total_height := lh * n + (n - 1) * 4 |}.

(** [try: ImageFont.truetype(...) except: ImageFont.load_default()] *)
Definition load_font_or_default (font_size : Z) : font :=
  if truetype_loads env font_size then TrueType font_size else DefaultFont.

(** [while font_size >= min_font_size]: [Some (Some l)] leaves by [break]
    with [chosen_font] set, [Some None] leaves with [chosen_font] still
    [None], and [None] is the model running out of [fuel]. *)
Fixpoint shrink_loop (fuel : nat) (font_size : Z) (translated_text : pystr)
  (max_width max_height : Z) : option (option layout) :=
  match fuel with
  | O => None
  | S fuel' =>
      if font_size >=? min_font_size then
        let l := measure_block (load_font_or_default font_size)
                   translated_text max_width in
        if total_height l <=? max_height then Some (Some l)
        else shrink_loop fuel' (font_size - 2) translated_text
               max_width max_height
      else Some None
  end.

(** Lines 150-180: the search and the path taken when it chose no font,
    where [ImageFont.truetype] is called outside any [try]. *)
Definition fit (translated_text : pystr) (max_width max_height : Z)
  : outcome layout :=
  let font_size := 23 in
  match shrink_loop (Z.to_nat (font_size - min_font_size + 2)) font_size
          translated_text max_width max_height with
  | None => Raise FuelExhausted
  | Some (Some l) => Ok l
  | Some None =>
      if truetype_loads env min_font_size
      then Ok (measure_block (TrueType min_font_size) translated_text max_width)
      else Raise OSError
  end.

(** *** Validation of the translated text *)

Definition curly : pystr := [8217%N].

Definition invalid_phrases : list pystr :=
  [ of_ascii "please provide the text";
    of_ascii "cannot translate the text";
    of_ascii "doesn" ++ curly ++ of_ascii "t convey a clear meaning";
    of_ascii "can" ++ curly ++ of_ascii "t assist with that";
    of_ascii "does not appear to be a coherent phrase";
    of_ascii "I'm sorry, but I can't assist with that." ].

Inductive validation : Type :=
| Accepted (translated_text : pystr)
| RejectedPhrase
| RejectedEmpty.

(** Lines 142-148. *)
Definition validate (translated_text : pystr) : validation :=
  if existsb (fun p => contains p (lower env translated_text)) invalid_phrases
  then RejectedPhrase
  else
    let translated_text := strip (remove_ascii_letters translated_text) in
    if (negb (truthy translated_text) || isspace translated_text)%bool
    then RejectedEmpty
    else Accepted translated_text.

(** *** The two passes of [erase_sentences_from_image] *)

Definition padding_x : Z := 12.
Definition padding_y : Z := 10.

(** The body of the first loop. *)
Definition erase_box (box : region) : M unit :=
  let '(x0, y0, x1, y1) := bbox box in
  let x0 := Z.max 0 (x0 - padding_x) in
  let y0 := Z.max 0 (y0 - padding_y) in
  let x1 := x1 + padding_x in
  let y1 := y1 + padding_y in
  paint (Rectangle x0 y0 x1 y1 White).

(** [for line in reshaped_lines: ... draw.text ... current_y += ...] *)
Fixpoint draw_lines (lines : list pystr) (f : font) (x0 max_width : Z)
  (lh : Z) (current_y : Z) : M unit :=
  match lines with
  | [] => ret tt
  | line :: rest =>
      let line_width := text_right env f line in
      let center_x := x0 + (max_width - line_width) / 2 in
      paint (Text center_x current_y line Black f) ;;;
      draw_lines rest f x0 max_width lh (current_y + lh + 4)
  end.

(** The test of line 138. *)
Definition too_small (max_width max_height : Z) : bool :=
  ((max_width <? 10) || (max_height <? 10))%bool.

(** The body of the second loop; [ret tt] is a [continue]. *)
Definition draw_box (box : region) : M unit :=
  let text := strip (text box) in
  if (negb (truthy text) || isspace text)%bool then ret tt
  else
    let '(x0, y0, x1, y1) := bbox box in
    let x0 := Z.max 0 (x0 - padding_x) in
    let y0 := Z.max 0 (y0 - padding_y) in
    let x1 := x1 + padding_x in
    let y1 := y1 + padding_y in
    let max_width := x1 - x0 in
    let max_height := y1 - y0 in
    if too_small max_width max_height then ret tt
    else
      translated_text <- translate_openl text ;;
      match validate translated_text with
      | RejectedPhrase => print (SkippingInvalid translated_text)
      | RejectedEmpty => print EmptyAfterRemovingEnglish
      | Accepted translated_text =>
          l <- lift (fit translated_text max_width max_height) ;;
          let current_y := y0 + (max_height - total_height l) / 2 in
          draw_lines (reshaped_lines l) (chosen l) x0 max_width
            (line_height l) current_y
      end.

Definition erase_sentences_from_image (sentence_boxes : list region) : M unit :=
  open_image ;;;
  iter sentence_boxes erase_box ;;;
  iter sentence_boxes draw_box ;;;
  print TranslatedAndSaved.

End Renderer.

(** ** Properties the specification states, as predicates on the model *)

Section Statements.

Variable env : environment.

(** The block height the search computes at TrueType size [s]. *)
Definition block_height (s : Z) (translated_text : pystr) (max_width : Z) : Z :=
  total_height (measure_block env (TrueType s) translated_text max_width).

(** [l] uses the largest size of [sizes] whose block fits in [max_height],
    or size 18 when no size of [sizes] fits. *)
Definition largest_fitting_else_min (sizes : list Z)
  (translated_text : pystr) (max_width max_height : Z) (l : layout) : Prop :=
  (exists s,
      chosen l = TrueType s /\ In s sizes /\
      block_height s translated_text max_width <= max_height /\
      forall s', In s' sizes ->
                 block_height s' translated_text max_width <= max_height ->
                 s' <= s)
  \/
  ((forall s, In s sizes ->
              max_height < block_height s translated_text max_width) /\
   chosen l = TrueType 18).



End Statements.

(** The rectangle the specification wants painted for a region: the box
    grown by 12 horizontally and 10 vertically, its left and top edges
    clamped at 0, solid white. *)
Definition erased_rectangle (box : region) : canvas_op :=
  let '(x0, y0, x1, y1) := bbox box in
  Rectangle (Z.max 0 (x0 - 12)) (Z.max 0 (y0 - 10)) (x1 + 12) (y1 + 10) White.

Definition is_text (op : canvas_op) : Prop :=
  match op with Text _ _ _ _ _ => True | Rectangle _ _ _ _ _ => False end.

Definition is_rectangle (op : canvas_op) : Prop :=
  match op with Rectangle _ _ _ _ _ => True | Text _ _ _ _ _ => False end.

(** A computation that paints nothing but text on the canvas, whether it
    returns or raises. *)
Definition adds_only_text {A : Type} (m : M A) : Prop :=
  forall w, exists texts,
    canvas (snd (m w)) = canvas w ++ texts /\ Forall is_text texts.

(** No rectangle is painted once a text has been drawn. *)
Definition erase_before_draw (ops : list canvas_op) : Prop :=
  forall before op after,
    ops = before ++ op :: after -> is_text op -> Forall is_text after.

(** ** A fixed-pitch environment to run the model in *)

Module Fixture.

Definition font_px (f : font) : Z :=
  match f with TrueType s => s | DefaultFont => 11 end.

(** Every glyph is [font_px] wide and high, the service answers
    [answer], and the font file loads iff [loads]. *)
Definition fixed_pitch (loads : bool) (answer : api_result) : environment :=
  {| lower := ascii_lower;
     chat_completion := fun _ _ => answer;
     truetype_loads := fun _ => loads;
     text_right := fun f s => font_px f * len s;
     text_bottom := fun f _ => font_px f;
     reshape_display := fun s => s |}.

(** Two Arabic letters, U+0644 U+0627. *)
Definition la : pystr := [1604%N; 1575%N].


Definition empty_world : world :=
  {| canvas := []; console := []; api_calls := O |}.

Definition ascii_alnum (c : char) : bool :=
  (in_range 48 57 c || is_ascii_letter c)%bool.

Definition square (x0 y0 x1 y1 : Z) : list vertex :=
  [ {| vx := x0; vy := y0 |}; {| vx := x1; vy := y0 |};
    {| vx := x1; vy := y1 |}; {| vx := x0; vy := y1 |} ].

Definition mk_word (s : string) (box : list vertex) : word :=
  {| symbols := map (fun c => {| symbol_text := [c] |}) (of_ascii s);
     bounding_box := box |}.

(** The paragraph [Hello world] over the box (10,10)-(110,40). *)
Definition hello_world : paragraph :=
  {| words := [ mk_word "Hello" (square 10 10 55 40);
                mk_word "world" (square 60 12 110 38) ] |}.

Definition hello_response : response :=
  {| error_message := [];
     pages := [ {| blocks := [ {| paragraphs := [hello_world] |} ] |} ] |}.

Definition hello_region : region :=
  {| text := of_ascii "Hello world"; bbox := (10, 10, 110, 40) |}.

(** The refusal the service is known to answer with, as listed last in
    [invalid_phrases]. *)
Definition refusal : pystr := of_ascii "I'm sorry, but I can't assist with that.".

End Fixture.

(** ** The batch driver *)

(** [s.endswith(suffix)] *)
Definition ends_with (suffix s : pystr) : bool :=
  starts_with (rev suffix) (rev s).

Definition sep : char := 47%N.

(** [os.path.join(a, b)] with POSIX separators. *)
Definition path_join (a b : pystr) : pystr :=
  if starts_with [sep] b then b
  else if (negb (truthy a) || ends_with [sep] a)%bool then a ++ b
  else a ++ [sep] ++ b.



(** What a batch run leaves behind: the renderer's state, the files written
    by [image.save] with the canvas each one holds, and the file names
    announced as being processed. *)
Record batch := {
  session : world;
  written : list (pystr * list canvas_op);
  announced : list pystr
}.



Definition output_name (output_folder filename : pystr) : pystr :=
  path_join output_folder (of_ascii "translated_" ++ filename).

(** ** Further predicates used in the statements *)

(** A word as [split] returns them: not empty, no whitespace in it. *)
Definition no_space (w : pystr) : bool :=
  forallb (fun c => negb (isspace_char c)) w.

Definition wordy (w : pystr) : Prop := w <> [] /\ no_space w = true.

(** A text with nothing but whitespace in it (or nothing at all). *)
Definition blank (s : pystr) : bool := forallb isspace_char s.

(** A computation that makes at most [calls] requests to the translation
    service, prints no success message, and raises nothing but the font
    error. *)
Definition effect_bound {A : Type} (calls : nat) (m : M A) : Prop :=
  forall w,
    (api_calls w <= api_calls (snd (m w)) <= api_calls w + calls)%nat /\
    (exists msgs, console (snd (m w)) = console w ++ msgs /\
                  ~ In TranslatedAndSaved msgs) /\
    (forall e, fst (m w) = Raise e -> e = OSError).

(** The block the search measures at size [s], with the font it has
    there: the TrueType font, or the default one when the file fails. *)
Definition tried (env : environment) (t : pystr) (w s : Z) : layout :=
  measure_block env (load_font_or_default env s) t w.

(** The position of the [k]-th line of a block drawn from [top]. *)
Definition placed (env : environment) (f : font) (x0 max_width lh top : Z)
  (k : nat) (line : pystr) : canvas_op :=
  Text (x0 + (max_width - text_right env f line) / 2)
       (top + Z.of_nat k * (lh + 4)) line Black f.

(** The lines of a block drawn from [top], in the closed form of their
    positions. *)
Definition placed_block (env : environment) (f : font)
  (x0 max_width lh top : Z) (lines : list pystr) : list canvas_op :=
  map (fun kl => placed env f x0 max_width lh top (fst kl) (snd kl))
      (combine (seq 0 (List.length lines)) lines).

Module Fixture2.

Definition folder : list pystr :=
  [ of_ascii "page1.JPG"; of_ascii "notes.txt"; of_ascii "page2.png" ].



Definition empty_batch : batch :=
  {| session := Fixture.empty_world; written := []; announced := [] |}.

Definition no_vertices : paragraph :=
  {| words := [ Fixture.mk_word "Hello" [] ] |}.

Definition bad_response : response :=
  {| error_message := [];
     pages := [ {| blocks := [ {| paragraphs :=
                  [Fixture.hello_world; no_vertices] |} ] |} ] |}.

End Fixture2.

(** ** Strings *)

Lemma lstrip_app (s t : pystr) :
  lstrip (s ++ t) = match lstrip s with [] => lstrip t | _ => lstrip s ++ t end.
Proof.
  induction s as [|c s IH]; simpl.
  - destruct (lstrip t); reflexivity.
  - destruct (isspace_char c); [exact IH | reflexivity].
Qed.

Lemma strip_trailing_space (s : pystr) : strip (s ++ [space]) = strip s.
Proof.
  unfold strip, rstrip. rewrite lstrip_app.
  destruct (lstrip s) as [|c u] eqn:E; [reflexivity|].
  f_equal. rewrite rev_app_distr. reflexivity.
Qed.

Lemma spaced_tokens_join (toks : list pystr) :
  toks <> [] ->
  flat_map (fun t => t ++ [space]) toks = join [space] toks ++ [space].
Proof.
  induction toks as [|t rest IH]; [congruence|]. intros _.
  destruct rest as [|t' rest'].
  - simpl. rewrite app_nil_r. reflexivity.
  - change (flat_map (fun t0 => t0 ++ [space]) (t :: t' :: rest'))
      with ((t ++ [space]) ++ flat_map (fun t0 => t0 ++ [space]) (t' :: rest')).
    rewrite IH by discriminate.
    change (join [space] (t :: t' :: rest'))
      with (t ++ [space] ++ join [space] (t' :: rest')).
    rewrite <- !app_assoc. reflexivity.
Qed.

Lemma split_from_nonempty (s cur word : pystr) :
  In word (split_from cur s) -> word <> [].
Proof.
  revert cur. induction s as [|c s IH]; intros cur H; simpl in H.
  - destruct cur; simpl in H; [contradiction|].
    destruct H as [<-|[]]. discriminate.
  - destruct (isspace_char c).
    + destruct cur.
      * eapply IH; eassumption.
      * destruct H as [<-|H]; [discriminate | eapply IH; eassumption].
    + eapply IH; eassumption.
Qed.

Lemma split_nonempty (s word : pystr) : In word (split s) -> word <> [].
Proof. apply split_from_nonempty. Qed.

(** ** Extrema *)

Lemma fold_left_max_is_max (t : list Z) (x : Z) :
  is_max (fold_left Z.max t x) (x :: t).
Proof.
  revert x. induction t as [|y t IH]; intros x; simpl.
  - split; [now left|]. intros z [<-|[]]. lia.
  - destruct (IH (Z.max x y)) as [Hin Hle]. split.
    + destruct Hin as [Hin|Hin]; [|now right; right].
      rewrite <- Hin. destruct (Z.max_spec x y) as [[_ E]|[_ E]]; rewrite E.
      * right. now left.
      * now left.
    + intros z [<-|[<-|Hz]].
      * specialize (Hle (Z.max x y) (or_introl eq_refl)). lia.
      * specialize (Hle (Z.max x y) (or_introl eq_refl)). lia.
      * apply Hle. now right.
Qed.

Lemma fold_left_min_is_min (t : list Z) (x : Z) :
  is_min (fold_left Z.min t x) (x :: t).
Proof.
  revert x. induction t as [|y t IH]; intros x; simpl.
  - split; [now left|]. intros z [<-|[]]. lia.
  - destruct (IH (Z.min x y)) as [Hin Hle]. split.
    + destruct Hin as [Hin|Hin]; [|now right; right].
      rewrite <- Hin. destruct (Z.min_spec x y) as [[_ E]|[_ E]]; rewrite E.
      * now left.
      * right. now left.
    + intros z [<-|[<-|Hz]].
      * specialize (Hle (Z.min x y) (or_introl eq_refl)). lia.
      * specialize (Hle (Z.min x y) (or_introl eq_refl)). lia.
      * apply Hle. now right.
Qed.

Lemma is_max_unique (l : list Z) (a b : Z) : is_max a l -> is_max b l -> a = b.
Proof. intros [Ia Ha] [Ib Hb]. specialize (Ha _ Ib). specialize (Hb _ Ia). lia. Qed.

Lemma is_min_unique (l : list Z) (a b : Z) : is_min a l -> is_min b l -> a = b.
Proof. intros [Ia Ha] [Ib Hb]. specialize (Ha _ Ib). specialize (Hb _ Ia). lia. Qed.

Lemma greatest_is_max (l : list Z) : l <> [] -> is_max (greatest l) l.
Proof.
  destruct l as [|x t]; [congruence|]. intros _. unfold greatest. simpl hd.
  assert (G : forall u, (In (fold_right Z.max x u) u \/ fold_right Z.max x u = x)
                        /\ x <= fold_right Z.max x u
                        /\ forall z, In z u -> z <= fold_right Z.max x u).
  { induction u as [|y u [IH1 [IH2 IH3]]]; simpl.
    - split; [now right|]. split; [lia|]. intros z [].
    - split; [|split].
      + destruct (Z.max_spec y (fold_right Z.max x u)) as [[_ ->]|[_ ->]].
        * destruct IH1 as [H|H]; [left; now right | now right].
        * left. now left.
      + lia.
      + intros z [<-|Hz]; [lia|]. specialize (IH3 _ Hz). lia. }
  destruct (G (x :: t)) as [G1 [_ G3]]. split; [|exact G3].
  destruct G1 as [H|H]; [exact H|]. rewrite H. now left.
Qed.

Lemma least_is_min (l : list Z) : l <> [] -> is_min (least l) l.
Proof.
  destruct l as [|x t]; [congruence|]. intros _. unfold least. simpl hd.
  assert (G : forall u, (In (fold_right Z.min x u) u \/ fold_right Z.min x u = x)
                        /\ fold_right Z.min x u <= x
                        /\ forall z, In z u -> fold_right Z.min x u <= z).
  { induction u as [|y u [IH1 [IH2 IH3]]]; simpl.
    - split; [now right|]. split; [lia|]. intros z [].
    - split; [|split].
      + destruct (Z.min_spec y (fold_right Z.min x u)) as [[_ ->]|[_ ->]].
        * left. now left.
        * destruct IH1 as [H|H]; [left; now right | now right].
      + lia.
      + intros z [<-|Hz]; [lia|]. specialize (IH3 _ Hz). lia. }
  destruct (G (x :: t)) as [G1 [_ G3]]. split; [|exact G3].
  destruct G1 as [H|H]; [exact H|]. rewrite H. now left.
Qed.

Lemma py_max_greatest (l : list Z) : l <> [] -> py_max l = Ok (greatest l).
Proof.
  intros H. destruct l as [|x t]; [congruence|]. unfold py_max. f_equal.
  eapply is_max_unique; [apply fold_left_max_is_max | now apply greatest_is_max].
Qed.

Lemma py_min_least (l : list Z) : l <> [] -> py_min l = Ok (least l).
Proof.
  intros H. destruct l as [|x t]; [congruence|]. unfold py_min. f_equal.
  eapply is_min_unique; [apply fold_left_min_is_min | now apply least_is_min].
Qed.

(** ** The extractor *)

Section ExtractorFacts.

Variable isalnum : char -> bool.

Lemma fold_word_step (ws : list word) (s : pystr) (xs ys : list Z) :
  fold_left word_step ws (s, xs, ys) =
  (s ++ flat_map (fun t => t ++ [space])
          (map (fun w => List.concat (map symbol_text (symbols w))) ws),
   xs ++ map vx (flat_map bounding_box ws),
   ys ++ map vy (flat_map bounding_box ws)).
Proof.
  revert s xs ys. induction ws as [|w ws IH]; intros s xs ys; simpl.
  - rewrite !app_nil_r. reflexivity.
  - rewrite IH, !map_app, <- !app_assoc. reflexivity.
Qed.

Lemma scan_words_spec (p : paragraph) :
  scan_words p =
  (flat_map (fun t => t ++ [space]) (word_tokens p),
   map vx (all_vertices p), map vy (all_vertices p)).
Proof. unfold scan_words. rewrite fold_word_step. reflexivity. Qed.

Lemma strip_spaced_tokens (toks : list pystr) :
  strip (flat_map (fun t => t ++ [space]) toks) = strip (join [space] toks).
Proof.
  destruct toks as [|t rest]; [reflexivity|].
  rewrite spaced_tokens_join by discriminate. apply strip_trailing_space.
Qed.

(** On a paragraph with a vertex the loop body raises nothing and decides
    by the filter of the specification. *)
Lemma paragraph_region_spec (p : paragraph) :
  all_vertices p <> [] ->
  paragraph_region isalnum p =
  Ok (if spec_kept isalnum p then Some (spec_region p) else None).
Proof.
  intros Hv. unfold paragraph_region. rewrite scan_words_spec.
  assert (Hx : map vx (all_vertices p) <> []).
  { intros E. apply map_eq_nil in E. contradiction. }
  assert (Hy : map vy (all_vertices p) <> []).
  { intros E. apply map_eq_nil in E. contradiction. }
  rewrite (py_max_greatest _ Hx), (py_min_least _ Hx),
          (py_max_greatest _ Hy), (py_min_least _ Hy).
  rewrite strip_spaced_tokens. fold (spec_text p).
  unfold spec_kept, spec_region, spec_bbox, bbox_area, re_search_w.
  destruct ((len (spec_text p) <=? 6) &&
            ((greatest (map vx (all_vertices p)) - least (map vx (all_vertices p))) *
             (greatest (map vy (all_vertices p)) - least (map vy (all_vertices p)))
             >? 40000))%bool; simpl; [reflexivity|].
  destruct (existsb (word_char isalnum) (spec_text p)); reflexivity.
Qed.

Lemma paragraph_region_vertices (p : paragraph) (r : option region) :
  paragraph_region isalnum p = Ok r -> all_vertices p <> [].
Proof.
  unfold paragraph_region. rewrite scan_words_spec. intros H E.
  rewrite E in H. simpl in H. discriminate.
Qed.

Lemma for_each_paragraphs (ps : list paragraph) (acc : list region) :
  (forall p, In p ps -> all_vertices p <> []) ->
  for_each ps (paragraph_body isalnum) acc =
  Ok (acc ++ map spec_region (filter (spec_kept isalnum) ps)).
Proof.
  revert acc. induction ps as [|p ps IH]; intros acc Hv; simpl.
  - rewrite app_nil_r. reflexivity.
  - unfold paragraph_body at 1.
    rewrite paragraph_region_spec by (apply Hv; now left).
    destruct (spec_kept isalnum p).
    + rewrite IH by (intros q Hq; apply Hv; now right).
      simpl. rewrite <- app_assoc. reflexivity.
    + apply IH. intros q Hq; apply Hv; now right.
Qed.

Lemma for_each_blocks (bs : list block) (acc : list region) :
  (forall p, In p (flat_map paragraphs bs) -> all_vertices p <> []) ->
  for_each bs (fun b => for_each (paragraphs b) (paragraph_body isalnum)) acc =
  Ok (acc ++ map spec_region
                 (filter (spec_kept isalnum) (flat_map paragraphs bs))).
Proof.
  revert acc. induction bs as [|b bs IH]; intros acc Hv; simpl.
  - rewrite app_nil_r. reflexivity.
  - rewrite for_each_paragraphs
      by (intros q Hq; apply Hv; simpl; apply in_or_app; now left).
    rewrite IH by (intros q Hq; apply Hv; simpl; apply in_or_app; now right).
    rewrite filter_app, map_app, <- app_assoc. reflexivity.
Qed.

Lemma for_each_pages (pgs : list page) (acc : list region) :
  (forall p, In p (flat_map (fun pg => flat_map paragraphs (blocks pg)) pgs) ->
             all_vertices p <> []) ->
  for_each pgs
    (fun pg => for_each (blocks pg)
       (fun b => for_each (paragraphs b) (paragraph_body isalnum))) acc =
  Ok (acc ++ map spec_region
        (filter (spec_kept isalnum)
           (flat_map (fun pg => flat_map paragraphs (blocks pg)) pgs))).
Proof.
  revert acc. induction pgs as [|pg pgs IH]; intros acc Hv; simpl.
  - rewrite app_nil_r. reflexivity.
  - rewrite for_each_blocks
      by (intros q Hq; apply Hv; simpl; apply in_or_app; now left).
    rewrite IH by (intros q Hq; apply Hv; simpl; apply in_or_app; now right).
    rewrite filter_app, map_app, <- app_assoc. reflexivity.
Qed.

Lemma spec_kept_iff (p : paragraph) :
  spec_kept isalnum p = true <->
  (~ (len (spec_text p) <= 6 /\ bbox_area (spec_bbox p) > 40000) /\
   exists c, In c (spec_text p) /\ word_char isalnum c = true).
Proof.
  unfold spec_kept.
  rewrite andb_true_iff, negb_true_iff, andb_false_iff, existsb_exists.
  rewrite Z.leb_gt, Z.gtb_ltb, Z.ltb_ge.
  split; intros [H1 H2]; (split; [|exact H2]).
  - intros [? ?]. lia.
  - lia.
Qed.

Lemma emitted_bbox_extrema (p : paragraph) (r : region) :
  paragraph_region isalnum p = Ok (Some r) ->
  exists x0 y0 x1 y1,
    bbox r = (x0, y0, x1, y1) /\
    is_min x0 (map vx (all_vertices p)) /\
    is_min y0 (map vy (all_vertices p)) /\
    is_max x1 (map vx (all_vertices p)) /\
    is_max y1 (map vy (all_vertices p)).
Proof.
  intros H. pose proof (paragraph_region_vertices _ _ H) as Hv.
  rewrite (paragraph_region_spec p Hv) in H.
  destruct (spec_kept isalnum p); [|discriminate].
  injection H as <-.
  assert (Hx : map vx (all_vertices p) <> []).
  { intros E. apply map_eq_nil in E. contradiction. }
  assert (Hy : map vy (all_vertices p) <> []).
  { intros E. apply map_eq_nil in E. contradiction. }
  exists (least (map vx (all_vertices p))), (least (map vy (all_vertices p))),
         (greatest (map vx (all_vertices p))), (greatest (map vy (all_vertices p))).
  split; [reflexivity|].
  auto using least_is_min, greatest_is_max.
Qed.

(** C2. The noise filter: when the OCR service reports no error and every
    paragraph carries at least one vertex, the extractor returns, in
    traversal order, the regions of exactly the paragraphs that pass the
    filter; a paragraph yields an entry iff it is not the case that its
    trimmed text has at most 6 characters and its box area exceeds 40000,
    and its text has a word character.  Dropped paragraphs add nothing. *)
Theorem noise_filter_decides_presence (resp : response) :
  truthy (error_message resp) = false ->
  (forall p, In p (all_paragraphs resp) -> all_vertices p <> []) ->
  google_ocr isalnum resp =
    Ok (map spec_region (filter (spec_kept isalnum) (all_paragraphs resp)))
  /\
  forall p, In p (all_paragraphs resp) ->
    ((exists r, paragraph_region isalnum p = Ok (Some r)) <->
     (~ (len (spec_text p) <= 6 /\ bbox_area (spec_bbox p) > 40000) /\
      exists c, In c (spec_text p) /\ word_char isalnum c = true))
    /\
    ((forall r, paragraph_region isalnum p <> Ok (Some r)) ->
     forall acc, paragraph_body isalnum p acc = Ok acc).
Proof.
  intros Herr Hv. split.
  - unfold google_ocr. rewrite Herr. rewrite for_each_pages by exact Hv.
    reflexivity.
  - intros p Hp. specialize (Hv p Hp).
    unfold paragraph_body. rewrite (paragraph_region_spec p Hv).
    rewrite <- spec_kept_iff.
    destruct (spec_kept isalnum p); split.
    + split; [reflexivity | intros _; eexists; reflexivity].
    + intros Hn. exfalso. apply (Hn (spec_region p)). reflexivity.
    + split; [intros [r Hr]; discriminate | discriminate].
    + reflexivity.
Qed.

(** C9. Every emitted region carries the paragraph's word tokens joined by
    single spaces and trimmed, and the box (min x, min y, max x, max y) over
    all vertices of all words of the paragraph. *)
Theorem emitted_region_bbox_and_text (p : paragraph) (r : region) :
  paragraph_region isalnum p = Ok (Some r) ->
  text r = strip (join [space] (word_tokens p)) /\
  exists x0 y0 x1 y1,
    bbox r = (x0, y0, x1, y1) /\
    is_min x0 (map vx (all_vertices p)) /\
    is_min y0 (map vy (all_vertices p)) /\
    is_max x1 (map vx (all_vertices p)) /\
    is_max y1 (map vy (all_vertices p)).
Proof.
  intros H. split; [|exact (emitted_bbox_extrema p r H)].
  pose proof (paragraph_region_vertices _ _ H) as Hv.
  rewrite (paragraph_region_spec p Hv) in H.
  destruct (spec_kept isalnum p); [|discriminate].
  injection H as <-. reflexivity.
Qed.

(** C10. A region the extractor emits from vertices with non-negative
    coordinates has a padded box at least 12 wide and 10 high, so the test
    that skips boxes under 10 pixels is false for it. *)
Theorem padded_box_never_too_small (p : paragraph) (r : region) :
  paragraph_region isalnum p = Ok (Some r) ->
  (forall v, In v (all_vertices p) -> 0 <= vx v /\ 0 <= vy v) ->
  exists x0 y0 x1 y1,
    bbox r = (x0, y0, x1, y1) /\
    0 <= x0 <= x1 /\ 0 <= y0 <= y1 /\
    12 <= (x1 + padding_x) - Z.max 0 (x0 - padding_x) /\
    10 <= (y1 + padding_y) - Z.max 0 (y0 - padding_y) /\
    too_small ((x1 + padding_x) - Z.max 0 (x0 - padding_x))
              ((y1 + padding_y) - Z.max 0 (y0 - padding_y)) = false.
Proof.
  intros H Hpos.
  destruct (emitted_bbox_extrema p r H) as (x0 & y0 & x1 & y1 & Hb & Hx0 & Hy0 & Hx1 & Hy1).
  exists x0, y0, x1, y1. split; [exact Hb|].
  assert (Px : forall x, In x (map vx (all_vertices p)) -> 0 <= x).
  { intros x Hx. apply in_map_iff in Hx. destruct Hx as (v & <- & Hv).
    apply Hpos, Hv. }
  assert (Py : forall y, In y (map vy (all_vertices p)) -> 0 <= y).
  { intros y Hy. apply in_map_iff in Hy. destruct Hy as (v & <- & Hv).
    apply Hpos, Hv. }
  destruct Hx0 as [Ix0 Lx0], Hy0 as [Iy0 Ly0], Hx1 as [Ix1 Lx1], Hy1 as [Iy1 Ly1].
  pose proof (Px _ Ix0). pose proof (Py _ Iy0).
  pose proof (Lx0 _ Ix1). pose proof (Ly0 _ Iy1).
  unfold too_small, padding_x, padding_y.
  repeat split; lia.
Qed.

End ExtractorFacts.

Lemma noise_filter_decides_presence_witness :
  google_ocr Fixture.ascii_alnum Fixture.hello_response =
  Ok [Fixture.hello_region].
Proof.
  refine (eq_trans
            (proj1 (noise_filter_decides_presence Fixture.ascii_alnum
                      Fixture.hello_response _ _)) _).
  - reflexivity.
  - intros p [<-|[]]. discriminate.
  - vm_compute. reflexivity.
Defined.

Lemma emitted_region_bbox_and_text_witness :
  text Fixture.hello_region =
  strip (join [space] (word_tokens Fixture.hello_world)).
Proof.
  refine (proj1 (emitted_region_bbox_and_text Fixture.ascii_alnum
                   Fixture.hello_world Fixture.hello_region _)).
  vm_compute. reflexivity.
Defined.

Lemma padded_box_never_too_small_witness :
  exists x0 y0 x1 y1,
    bbox Fixture.hello_region = (x0, y0, x1, y1) /\
    0 <= x0 <= x1 /\ 0 <= y0 <= y1 /\
    12 <= (x1 + padding_x) - Z.max 0 (x0 - padding_x) /\
    10 <= (y1 + padding_y) - Z.max 0 (y0 - padding_y) /\
    too_small ((x1 + padding_x) - Z.max 0 (x0 - padding_x))
              ((y1 + padding_y) - Z.max 0 (y0 - padding_y)) = false.
Proof.
  apply (padded_box_never_too_small Fixture.ascii_alnum Fixture.hello_world).
  - vm_compute. reflexivity.
  - intros v Hv. simpl in Hv.
    repeat (destruct Hv as [<-|Hv]; [simpl; lia|]). contradiction.
Defined.

(** ** [wrap_text] *)

Section WrapFacts.

Variable env : environment.
Variable f : font.
Variable max_width : Z.

Lemma wrap_fold_cons (w : pystr) (ws lines : list pystr) (cur : pystr) :
  fold_left (wrap_step env f max_width) (w :: ws) (lines, cur) =
  fold_left (wrap_step env f max_width) ws
    (if text_right env f
          (if negb (truthy cur) then w else cur ++ [space] ++ w) <=? max_width
     then (lines, if negb (truthy cur) then w else cur ++ [space] ++ w)
     else (lines ++ [cur], w)).
Proof. reflexivity. Qed.

Lemma wrap_fold_nil (lines : list pystr) (cur : pystr) :
  wrap_finish (fold_left (wrap_step env f max_width) [] (lines, cur)) =
  if truthy cur then lines ++ [cur] else lines.
Proof. reflexivity. Qed.






End WrapFacts.




(** ** The sizing search *)

Section FitFacts.

Variable env : environment.

Lemma shrink_loop_step (fuel : nat) (font_size : Z) (t : pystr) (w h : Z) :
  shrink_loop env (S fuel) font_size t w h =
  if font_size >=? min_font_size then
    if total_height (measure_block env (load_font_or_default env font_size) t w)
       <=? h
    then Some (Some (measure_block env (load_font_or_default env font_size) t w))
    else shrink_loop env fuel (font_size - 2) t w h
  else Some None.
Proof. reflexivity. Qed.

(** The loop tries 23, 21 and 19, in this order, and leaves at 17. *)
Lemma shrink_loop_from_23 (t : pystr) (w h : Z) :
  shrink_loop env (Z.to_nat (23 - min_font_size + 2)) 23 t w h =
  let at_size s := measure_block env (load_font_or_default env s) t w in
  if total_height (at_size 23) <=? h then Some (Some (at_size 23))
  else if total_height (at_size 21) <=? h then Some (Some (at_size 21))
  else if total_height (at_size 19) <=? h then Some (Some (at_size 19))
  else Some None.
Proof.
  change (Z.to_nat (23 - min_font_size + 2)) with 7%nat.
  rewrite shrink_loop_step. change (23 >=? min_font_size) with true.
  cbv iota zeta.
  destruct (total_height (measure_block env (load_font_or_default env 23) t w)
            <=? h); [reflexivity|].
  rewrite shrink_loop_step. change (23 - 2 >=? min_font_size) with true.
  change (23 - 2) with 21. cbv iota.
  destruct (total_height (measure_block env (load_font_or_default env 21) t w)
            <=? h); [reflexivity|].
  rewrite shrink_loop_step. change (21 - 2 >=? min_font_size) with true.
  change (21 - 2) with 19. cbv iota.
  destruct (total_height (measure_block env (load_font_or_default env 19) t w)
            <=? h); [reflexivity|].
  rewrite shrink_loop_step. reflexivity.
Qed.

(** The search terminates within the fuel [fit] gives it. *)
Lemma fit_terminates (t : pystr) (w h : Z) :
  fit env t w h <> Raise FuelExhausted.
Proof.
  unfold fit. rewrite shrink_loop_from_23. cbv zeta.
  repeat match goal with
         | |- context [if ?c then _ else _] => destruct c
         end; discriminate.
Qed.

Lemma chosen_measure_block (fnt : font) (t : pystr) (w : Z) :
  chosen (measure_block env fnt t w) = fnt.
Proof. reflexivity. Qed.

(** C1, as the code has it.  When the font file loads, the search returns
    the layout of the largest size among 23, 21 and 19 (23 stepping down by
    2 while at least 18) whose block height
    [line_height * n_lines + 4 * (n_lines - 1)] is at most the box height;
    when none of the three fits it returns size 18, whatever its height. *)
Theorem shrink_to_fit_largest_tried (t : pystr) (w h : Z) :
  (forall s, truetype_loads env s = true) ->
  exists l,
    fit env t w h = Ok l /\
    l = measure_block env (chosen l) t w /\
    total_height l =
      line_height l * Z.of_nat (List.length (reshaped_lines l)) +
      (Z.of_nat (List.length (reshaped_lines l)) - 1) * 4 /\
    largest_fitting_else_min env [23; 21; 19] t w h l.
Proof.
  intros Hload. unfold fit. rewrite shrink_loop_from_23. cbv zeta.
  unfold load_font_or_default. rewrite !Hload.
  unfold largest_fitting_else_min, block_height.
  destruct (total_height (measure_block env (TrueType 23) t w) <=? h) eqn:E23;
    [|destruct (total_height (measure_block env (TrueType 21) t w) <=? h) eqn:E21;
      [|destruct (total_height (measure_block env (TrueType 19) t w) <=? h) eqn:E19]];
    eexists; (split; [reflexivity|]); (split; [reflexivity|]);
    (split; [reflexivity|]);
    rewrite ?Z.leb_le, ?Z.leb_gt in *.
  - left. exists 23. rewrite chosen_measure_block.
    split; [reflexivity|]. split; [now left|]. split; [exact E23|].
    intros s' [<-|[<-|[<-|[]]]] _; lia.
  - left. exists 21. rewrite chosen_measure_block.
    split; [reflexivity|]. split; [right; now left|]. split; [exact E21|].
    intros s' [<-|[<-|[<-|[]]]] Hs; lia.
  - left. exists 19. rewrite chosen_measure_block.
    split; [reflexivity|]. split; [right; right; now left|].
    split; [exact E19|].
    intros s' [<-|[<-|[<-|[]]]] Hs; lia.
  - right. split; [|reflexivity].
    intros s [<-|[<-|[<-|[]]]]; assumption.
Qed.

(** The font file does not load and the default font's block is too high:
    the search ends without a font and [ImageFont.truetype] raises. *)
Lemma fit_unloadable_too_high (t : pystr) (w h : Z) :
  (forall s, truetype_loads env s = false) ->
  h < total_height (measure_block env DefaultFont t w) ->
  fit env t w h = Raise OSError.
Proof.
  intros Hload Hh. unfold fit. rewrite shrink_loop_from_23. cbv zeta.
  unfold load_font_or_default. rewrite !Hload.
  apply Z.leb_gt in Hh. rewrite Hh. reflexivity.
Qed.

(** The font file does not load and the default font's block fits: the
    default font is used. *)
Lemma fit_unloadable_fits (t : pystr) (w h : Z) :
  (forall s, truetype_loads env s = false) ->
  total_height (measure_block env DefaultFont t w) <= h ->
  fit env t w h = Ok (measure_block env DefaultFont t w).
Proof.
  intros Hload Hh. unfold fit. rewrite shrink_loop_from_23. cbv zeta.
  unfold load_font_or_default. rewrite !Hload.
  apply Z.leb_le in Hh. rewrite Hh. reflexivity.
Qed.

End FitFacts.

Lemma shrink_to_fit_largest_tried_witness :
  exists l,
    fit (Fixture.fixed_pitch true ApiFailure) Fixture.la 1000 21 = Ok l /\
    chosen l = TrueType 21.
Proof.
  destruct (shrink_to_fit_largest_tried (Fixture.fixed_pitch true ApiFailure)
              Fixture.la 1000 21 (fun _ => eq_refl)) as (l & Hfit & _).
  exists l. split; [exact Hfit|].
  vm_compute in Hfit. injection Hfit as <-. reflexivity.
Defined.

(** C1 as stated fails: with a box 21 high and a one-line text whose block
    is as high as the font size, the search returns size 21, which is not
    in {18, 20, 22, 23}; the largest size of that set that fits is 20. *)
Lemma shrink_to_fit_claimed_sizes_counterexample :
  fit (Fixture.fixed_pitch true ApiFailure) Fixture.la 1000 21 =
    Ok (measure_block (Fixture.fixed_pitch true ApiFailure) (TrueType 21)
          Fixture.la 1000) /\
  block_height (Fixture.fixed_pitch true ApiFailure) 20 Fixture.la 1000 <= 21 /\
  ~ exists l,
      fit (Fixture.fixed_pitch true ApiFailure) Fixture.la 1000 21 = Ok l /\
      largest_fitting_else_min (Fixture.fixed_pitch true ApiFailure)
        [18; 20; 22; 23] Fixture.la 1000 21 l.
Proof.
  split; [vm_compute; reflexivity|].
  split; [vm_compute; discriminate|].
  intros (l & Hfit & Hl). vm_compute in Hfit. injection Hfit as <-.
  destruct Hl as [(s & Hs & Hin & _)|[Hnone _]].
  - simpl in Hs. injection Hs as <-.
    simpl in Hin. destruct Hin as [H|[H|[H|[H|[]]]]]; discriminate.
  - specialize (Hnone 20 (or_intror (or_introl eq_refl))).
    vm_compute in Hnone. discriminate.
Qed.

(** ** The renderer *)

Create HintDb canvas.

Lemma adds_ret {A : Type} (a : A) : adds_only_text (ret a).
Proof. intros w. exists []. rewrite app_nil_r. split; [reflexivity | constructor]. Qed.

Lemma adds_lift {A : Type} (o : outcome A) : adds_only_text (lift o).
Proof. intros w. exists []. rewrite app_nil_r. split; [reflexivity | constructor]. Qed.

Lemma adds_print (m : message) : adds_only_text (print m).
Proof. intros w. exists []. rewrite app_nil_r. split; [reflexivity | constructor]. Qed.

Lemma adds_call_service (env : environment) (t : pystr) :
  adds_only_text (call_service env t).
Proof. intros w. exists []. rewrite app_nil_r. split; [reflexivity | constructor]. Qed.

Lemma adds_paint_text (x y : Z) (line : pystr) (c : color) (f : font) :
  adds_only_text (paint (Text x y line c f)).
Proof.
  intros w. exists [Text x y line c f]. split; [reflexivity|].
  repeat constructor.
Qed.

Lemma adds_bind {A B : Type} (m : M A) (k : A -> M B) :
  adds_only_text m -> (forall a, adds_only_text (k a)) ->
  adds_only_text (bind m k).
Proof.
  intros Hm Hk w. unfold bind. destruct (Hm w) as (t1 & E1 & F1).
  destruct (m w) as [[a|e] w']; simpl in E1.
  - destruct (Hk a w') as (t2 & E2 & F2). exists (t1 ++ t2).
    rewrite E2, E1, app_assoc. split; [reflexivity|].
    apply Forall_app. now split.
  - exists t1. now split.
Qed.

#[export] Hint Resolve adds_ret adds_lift adds_print adds_call_service
  adds_paint_text : canvas.

Ltac canvas_step :=
  repeat (apply adds_bind; [|intros ?]); auto with canvas.

Section RendererFacts.

Variable env : environment.

Lemma adds_translate_openl (t : pystr) : adds_only_text (translate_openl env t).
Proof.
  unfold translate_openl. apply adds_bind; [auto with canvas|].
  intros [content|]; canvas_step.
Qed.

Lemma adds_draw_lines (lines : list pystr) (f : font) (x0 mw lh y : Z) :
  adds_only_text (draw_lines env lines f x0 mw lh y).
Proof.
  revert y. induction lines as [|line rest IH]; intros y; simpl.
  - auto with canvas.
  - apply adds_bind; [auto with canvas | intros _; apply IH].
Qed.

Lemma adds_draw_box (box : region) : adds_only_text (draw_box env box).
Proof.
  unfold draw_box.
  destruct (negb (truthy (strip (text box))) || isspace (strip (text box)))%bool;
    [auto with canvas|].
  destruct (bbox box) as [[[x0 y0] x1] y1].
  destruct (too_small _ _); [auto with canvas|].
  apply adds_bind; [apply adds_translate_openl|].
  intros translated. destruct (validate env translated); auto with canvas.
  apply adds_bind; [auto with canvas|].
  intros l. apply adds_draw_lines.
Qed.

Lemma adds_iter_draw (boxes : list region) :
  adds_only_text (iter boxes (draw_box env)).
Proof.
  induction boxes as [|box rest IH]; simpl.
  - auto with canvas.
  - apply adds_bind; [apply adds_draw_box | intros _; exact IH].
Qed.

Lemma erase_box_paints (box : region) (w : world) :
  erase_box box w =
  (Ok tt, {| canvas := canvas w ++ [erased_rectangle box];
             console := console w;
             api_calls := api_calls w |}).
Proof.
  unfold erase_box, erased_rectangle.
  destruct (bbox box) as [[[x0 y0] x1] y1]. reflexivity.
Qed.

(** The first pass paints one rectangle per region, in order, and cannot
    raise. *)
Lemma iter_erase_paints (boxes : list region) (w : world) :
  iter boxes erase_box w =
  (Ok tt, {| canvas := canvas w ++ map erased_rectangle boxes;
             console := console w;
             api_calls := api_calls w |}).
Proof.
  revert w. induction boxes as [|box rest IH]; intros w; simpl.
  - rewrite app_nil_r. destruct w; reflexivity.
  - unfold bind. rewrite erase_box_paints, IH. simpl.
    rewrite <- app_assoc. reflexivity.
Qed.

(** The canvas of a run: every erasure, then text only. *)
Lemma canvas_of_run (boxes : list region) (w : world) :
  exists texts,
    canvas (snd (erase_sentences_from_image env boxes w)) =
      map erased_rectangle boxes ++ texts /\
    Forall is_text texts.
Proof.
  unfold erase_sentences_from_image, bind at 1, open_image.
  unfold bind at 1. rewrite iter_erase_paints. simpl canvas.
  set (w1 := {| canvas := map erased_rectangle boxes;
                console := console w; api_calls := api_calls w |}).
  destruct (adds_iter_draw boxes w1) as (texts & E & F).
  exists texts. split; [|exact F].
  unfold bind. destruct (iter boxes (draw_box env) w1) as [[[]|e] w2];
    simpl in E |- *; exact E.
Qed.

Lemma erased_rectangle_not_text (boxes : list region) :
  Forall is_rectangle (map erased_rectangle boxes).
Proof.
  apply Forall_forall. intros op Hop. apply in_map_iff in Hop.
  destruct Hop as (box & <- & _). unfold erased_rectangle.
  destruct (bbox box) as [[[x0 y0] x1] y1]. exact I.
Qed.

Lemma text_after_rectangles (rects texts before after : list canvas_op)
  (op : canvas_op) :
  Forall is_rectangle rects -> Forall is_text texts ->
  rects ++ texts = before ++ op :: after -> is_text op ->
  Forall is_text after.
Proof.
  intros Hr Ht. revert before.
  induction Hr as [|r rects Hr1 Hr IH]; intros before E Hop; simpl in E.
  - assert (F : Forall is_text (before ++ op :: after)) by (rewrite <- E; exact Ht).
    apply Forall_app in F. destruct F as [_ F]. now inversion F.
  - destruct before as [|b before]; simpl in E.
    + injection E as -> _. destruct op; contradiction.
    + injection E as _ E. now apply (IH before).
Qed.

(** C4. In processing one image every erase rectangle, one per region of
    the list, is painted before any text is drawn: the canvas log is the
    rectangles of all regions followed by text only, so no rectangle is
    ever painted after a text, also when the draw pass raises. *)
Theorem erase_all_then_draw (boxes : list region) (w : world) :
  (exists texts,
     canvas (snd (erase_sentences_from_image env boxes w)) =
       map erased_rectangle boxes ++ texts /\
     Forall is_text texts) /\
  erase_before_draw (canvas (snd (erase_sentences_from_image env boxes w))).
Proof.
  destruct (canvas_of_run boxes w) as (texts & E & F). split.
  - exists texts. now split.
  - intros before op after Hsplit Hop. rewrite E in Hsplit.
    eapply text_after_rectangles; eauto using erased_rectangle_not_text.
Qed.


(** C8. When the call to the translation service fails, [translate_openl]
    returns the text it was given, unchanged, and raises nothing; the
    failure is only reported on the console. *)
Theorem translate_failure_returns_input (t : pystr) (w : world) :
  chat_completion env (api_calls w) t = ApiFailure ->
  fst (translate_openl env t w) = Ok t /\
  console (snd (translate_openl env t w)) = console w ++ [ErrorTranslating t] /\
  canvas (snd (translate_openl env t w)) = canvas w.
Proof.
  intros H. unfold translate_openl, bind, call_service. rewrite H.
  repeat split.
Qed.

End RendererFacts.


Lemma translate_failure_returns_input_witness :
  fst (translate_openl (Fixture.fixed_pitch true ApiFailure)
         (of_ascii "Hello world") Fixture.empty_world) =
  Ok (of_ascii "Hello world").
Proof.
  apply (translate_failure_returns_input (Fixture.fixed_pitch true ApiFailure)
           (of_ascii "Hello world") Fixture.empty_world).
  reflexivity.
Defined.

(** ** The validator *)

Lemma starts_with_head (c : char) (p s : pystr) :
  starts_with (c :: p) s = true -> In c s.
Proof.
  destruct s as [|d s]; simpl; [discriminate|].
  intros H. apply andb_true_iff in H. destruct H as [H _].
  apply N.eqb_eq in H. now left.
Qed.

Lemma contains_head (c : char) (p s : pystr) :
  contains (c :: p) s = true -> In c s.
Proof.
  induction s as [|d s IH]; intros H.
  - simpl in H. discriminate.
  - change (contains (c :: p) (d :: s))
      with (starts_with (c :: p) (d :: s) || contains (c :: p) s)%bool in H.
    apply orb_true_iff in H. destruct H as [H|H].
    + now apply starts_with_head in H.
    + right. now apply IH.
Qed.

Lemma ascii_lower_no_capital (t : pystr) (c : char) :
  in_range 65 90 c = true -> ~ In c (ascii_lower t).
Proof.
  intros Hc Hin. unfold ascii_lower in Hin. apply in_map_iff in Hin.
  destruct Hin as (d & Hd & _). unfold ascii_lower_char in Hd.
  unfold in_range in *.
  destruct (N.leb 65 d && N.leb d 90)%bool eqn:E; subst c.
  - apply andb_true_iff in Hc. destruct Hc as [_ Hc].
    apply andb_true_iff in E. destruct E as [E _].
    apply N.leb_le in Hc, E. lia.
  - congruence.
Qed.

(** The last phrase of [invalid_phrases] starts with a capital letter, and
    the text it is searched in was lower-cased: it is never found. *)
Lemma capital_phrase_never_matches (env : environment) (t : pystr) :
  ~ In 73%N (lower env t) ->
  contains (of_ascii "I'm sorry, but I can't assist with that.")
    (lower env t) = false.
Proof.
  intros H.
  destruct (contains (of_ascii "I'm sorry, but I can't assist with that.")
              (lower env t)) eqn:E; [|reflexivity].
  exfalso. apply H. revert E. apply contains_head.
Qed.

Lemma validate_accepts_stripped (env : environment) (t s : pystr) :
  validate env t = Accepted s -> s = strip (remove_ascii_letters t).
Proof.
  unfold validate.
  destruct (existsb _ invalid_phrases); [discriminate|].
  destruct (negb (truthy (strip (remove_ascii_letters t)))
            || isspace (strip (remove_ascii_letters t)))%bool; [discriminate|].
  now intros [= <-].
Qed.

Lemma validate_rejects_phrase (env : environment) (t : pystr) :
  validate env t = RejectedPhrase <->
  exists p, In p invalid_phrases /\ contains p (lower env t) = true.
Proof.
  unfold validate. rewrite <- existsb_exists.
  destruct (existsb _ invalid_phrases); [tauto|].
  destruct (negb (truthy (strip (remove_ascii_letters t)))
            || isspace (strip (remove_ascii_letters t)))%bool;
    split; discriminate.
Qed.

(** C5, on the code.  The service's refusal [I'm sorry, but I can't assist
    with that.], which is one of the fixed phrases, is not rejected: the
    text is lower-cased before the search and the phrase is not, so the
    validator accepts the punctuation left after the Latin letters are
    removed, and the renderer draws it. *)
Theorem refusal_in_capitals_is_drawn :
  In Fixture.refusal invalid_phrases /\
  validate (Fixture.fixed_pitch true (Responded Fixture.refusal))
    Fixture.refusal = Accepted (of_ascii "' ,   '   .") /\
  erase_sentences_from_image
    (Fixture.fixed_pitch true (Responded Fixture.refusal))
    [Fixture.hello_region] Fixture.empty_world =
  (Ok tt,
   {| canvas := [ Rectangle 0 0 122 50 White;
                  Text 3 0 (of_ascii "' , '") Black (TrueType 23);
                  Text 49 27 (of_ascii ".") Black (TrueType 23) ];
      console := [TranslatedAndSaved];
      api_calls := 1 |}).
Proof.
  split; [|split].
  - unfold invalid_phrases, Fixture.refusal. simpl. tauto.
  - vm_compute. reflexivity.
  - vm_compute. reflexivity.
Qed.


(** ** More on strings: [split], [join] and [strip] *)

Lemma split_from_flush (cur : pystr) :
  split_from cur [] = if truthy cur then [cur] else [].
Proof. destruct cur; reflexivity. Qed.

Lemma split_from_space (cur t : pystr) :
  split_from cur (space :: t) = split_from cur [] ++ split_from [] t.
Proof. destruct cur; reflexivity. Qed.

Lemma split_from_word (w cur rest : pystr) :
  no_space w = true -> split_from cur (w ++ rest) = split_from (cur ++ w) rest.
Proof.
  revert cur. induction w as [|c w IH]; intros cur H.
  - rewrite app_nil_r. reflexivity.
  - simpl in H. apply andb_true_iff in H. destruct H as [Hc Hw].
    apply negb_true_iff in Hc. simpl. rewrite Hc, (IH _ Hw), <- app_assoc.
    reflexivity.
Qed.

Lemma split_word (w : pystr) : wordy w -> split w = [w].
Proof.
  intros [Hne Hw]. unfold split.
  rewrite <- (app_nil_r w) at 1. rewrite (split_from_word w [] [] Hw).
  simpl. destruct w; [congruence | reflexivity].
Qed.

Lemma split_from_app_word (cur s w : pystr) :
  wordy w -> split_from cur (s ++ [space] ++ w) = split_from cur s ++ [w].
Proof.
  intros Hw. revert cur. induction s as [|c s IH]; intros cur.
  - change ([] ++ [space] ++ w) with (space :: w).
    rewrite split_from_space. f_equal. now apply split_word.
  - simpl. destruct (isspace_char c).
    + destruct cur; [apply IH | simpl; f_equal; apply IH].
    + apply IH.
Qed.

Lemma join_snoc (sp : pystr) (l : list pystr) (w : pystr) :
  l <> [] -> join sp (l ++ [w]) = join sp l ++ sp ++ w.
Proof.
  induction l as [|a l IH]; [congruence|]. intros _.
  destruct l as [|b l].
  - reflexivity.
  - change (join sp ((a :: b :: l) ++ [w]))
      with (a ++ sp ++ join sp ((b :: l) ++ [w])).
    rewrite IH by discriminate.
    change (join sp (a :: b :: l)) with (a ++ sp ++ join sp (b :: l)).
    rewrite <- !app_assoc. reflexivity.
Qed.

Lemma no_space_snoc (cur : pystr) (c : char) :
  no_space cur = true -> isspace_char c = false ->
  no_space (cur ++ [c]) = true.
Proof.
  intros H Hc. unfold no_space in *. rewrite forallb_app, H. simpl.
  now rewrite Hc.
Qed.

Lemma split_from_wordy (s cur w : pystr) :
  no_space cur = true -> In w (split_from cur s) -> wordy w.
Proof.
  revert cur. induction s as [|c s IH]; intros cur Hcur Hin; simpl in Hin.
  - destruct cur; [contradiction|]. destruct Hin as [<-|[]].
    split; [discriminate | exact Hcur].
  - destruct (isspace_char c) eqn:Ec.
    + destruct cur.
      * now apply (IH []).
      * destruct Hin as [<-|Hin]; [split; [discriminate | exact Hcur]|].
        now apply (IH []).
    + apply (IH (cur ++ [c])); [now apply no_space_snoc | exact Hin].
Qed.

Lemma split_wordy (s w : pystr) : In w (split s) -> wordy w.
Proof. now apply split_from_wordy. Qed.

Lemma split_from_nil_iff (s cur : pystr) :
  split_from cur s = [] <-> cur = [] /\ blank s = true.
Proof.
  revert cur. induction s as [|c s IH]; intros cur; simpl.
  - destruct cur; split; try tauto; try discriminate.
    intros [H _]. discriminate.
  - destruct (isspace_char c); simpl.
    + destruct cur.
      * apply IH.
      * split; [discriminate | intros [H _]; discriminate].
    + rewrite IH. split; [|intros [_ H]; discriminate].
      intros [H _]. destruct cur; discriminate.
Qed.

Lemma split_nil_iff (s : pystr) : split s = [] <-> blank s = true.
Proof. unfold split. rewrite split_from_nil_iff. tauto. Qed.

(** Joining words with single spaces and splitting again gives the words
    back. *)
Lemma split_join_words (ws : list pystr) :
  Forall wordy ws -> split (join [space] ws) = ws.
Proof.
  induction ws as [|w rest IH]; intros H; [reflexivity|].
  inversion H as [|? ? Hw Hrest]; subst.
  destruct rest as [|w' rest'].
  - now apply split_word.
  - change (join [space] (w :: w' :: rest'))
      with (w ++ space :: join [space] (w' :: rest')).
    unfold split. destruct Hw as [Hne Hns].
    rewrite (split_from_word w [] _ Hns). simpl app.
    rewrite split_from_space. fold (split (join [space] (w' :: rest'))).
    rewrite (IH Hrest). destruct w; [congruence | reflexivity].
Qed.

Lemma lstrip_head (s : pystr) (c : char) (u : pystr) :
  lstrip s = c :: u -> isspace_char c = false.
Proof.
  induction s as [|d s IH]; simpl; [discriminate|].
  destruct (isspace_char d) eqn:E; [exact IH|].
  now intros [= <- _].
Qed.

Lemma lstrip_nonspace (c : char) (u : pystr) :
  isspace_char c = false -> lstrip (c :: u) = c :: u.
Proof. intros H. simpl. now rewrite H. Qed.

Lemma lstrip_blank (s : pystr) : blank s = true -> lstrip s = [].
Proof.
  induction s as [|c s IH]; simpl; [reflexivity|].
  intros H. apply andb_true_iff in H. destruct H as [-> H]. now apply IH.
Qed.

Lemma rstrip_cons_nonspace (c : char) (u : pystr) :
  isspace_char c = false -> rstrip (c :: u) = c :: rstrip u.
Proof.
  intros H. unfold rstrip. simpl rev. rewrite lstrip_app.
  destruct (lstrip (rev u)) as [|d v] eqn:E.
  - simpl. now rewrite H.
  - rewrite rev_app_distr. reflexivity.
Qed.

(** [strip] keeps a text that starts with a non-whitespace character from
    there on, up to its trailing whitespace. *)
Lemma strip_cases (s : pystr) :
  strip s = match lstrip s with [] => [] | c :: u => c :: rstrip u end.
Proof.
  unfold strip. destruct (lstrip s) as [|c u] eqn:E; [reflexivity|].
  apply rstrip_cons_nonspace. eapply lstrip_head; eassumption.
Qed.

Lemma strip_head (s : pystr) (c : char) (u : pystr) :
  strip s = c :: u -> isspace_char c = false.
Proof.
  rewrite strip_cases. destruct (lstrip s) as [|d v] eqn:E; [discriminate|].
  intros [= <- _]. eapply lstrip_head; eassumption.
Qed.

Lemma lstrip_incl (s : pystr) (c : char) : In c (lstrip s) -> In c s.
Proof.
  induction s as [|d s IH]; simpl; [tauto|].
  destruct (isspace_char d); [intros H; right; now apply IH | tauto].
Qed.

Lemma strip_incl (s : pystr) (c : char) : In c (strip s) -> In c s.
Proof.
  unfold strip, rstrip. intros H. apply in_rev in H.
  apply lstrip_incl in H. apply in_rev in H. now apply lstrip_incl.
Qed.

Lemma rstrip_idempotent (s : pystr) : rstrip (rstrip s) = rstrip s.
Proof.
  unfold rstrip. rewrite rev_involutive. f_equal.
  destruct (lstrip (rev s)) as [|c u] eqn:E; [reflexivity|].
  apply lstrip_nonspace. eapply lstrip_head; eassumption.
Qed.

Lemma strip_idempotent (s : pystr) : strip (strip s) = strip s.
Proof.
  rewrite (strip_cases s). destruct (lstrip s) as [|c u] eqn:E; [reflexivity|].
  assert (Hc : isspace_char c = false) by (eapply lstrip_head; eassumption).
  unfold strip. rewrite (lstrip_nonspace _ _ Hc).
  rewrite <- (rstrip_cons_nonspace _ _ Hc). apply rstrip_idempotent.
Qed.

Lemma strip_blank (s : pystr) : blank s = true -> strip s = [].
Proof. intros H. unfold strip. now rewrite (lstrip_blank _ H). Qed.

(** A stripped text that is not empty passes the test
    [not text or text.isspace()] as false. *)
Lemma stripped_not_blank (s : pystr) :
  strip s <> [] ->
  (negb (truthy (strip s)) || isspace (strip s))%bool = false.
Proof.
  intros H. destruct (strip s) as [|c u] eqn:E; [congruence|].
  apply strip_head in E. unfold isspace. simpl. rewrite E. reflexivity.
Qed.

(** ** More on [wrap_text] *)

Section WrapMore.

Variable env : environment.
Variable f : font.
Variable max_width : Z.

(** The line tried for [word] after [cur]. *)
Lemma test_line_split (cur word : pystr) :
  wordy word ->
  split (if negb (truthy cur) then word else cur ++ [space] ++ word) =
  split cur ++ [word].
Proof.
  intros Hw. destruct cur as [|c cur]; simpl negb; cbv iota.
  - now apply split_word.
  - unfold split. now apply split_from_app_word.
Qed.

Lemma test_line_nonempty (cur word : pystr) :
  word <> [] ->
  (if negb (truthy cur) then word else cur ++ [space] ++ word) <> [].
Proof.
  intros Hw. destruct cur as [|c cur]; simpl negb; cbv iota;
    [exact Hw | discriminate].
Qed.

Lemma wrap_words_kept (ws lines : list pystr) (cur : pystr) :
  Forall wordy ws ->
  List.concat (map split
     (wrap_finish (fold_left (wrap_step env f max_width) ws (lines, cur)))) =
  List.concat (map split lines) ++ split cur ++ ws.
Proof.
  intros Hws. revert lines cur.
  induction Hws as [|w ws Hw Hws IH]; intros lines cur.
  - rewrite wrap_fold_nil, app_nil_r. destruct cur as [|c cur]; simpl truthy;
      cbv iota.
    + rewrite app_nil_r. reflexivity.
    + rewrite map_app, concat_app. simpl. rewrite app_nil_r. reflexivity.
  - rewrite wrap_fold_cons.
    destruct (text_right env f
                (if negb (truthy cur) then w else cur ++ [space] ++ w)
              <=? max_width).
    + rewrite IH, (test_line_split cur w Hw), <- app_assoc. reflexivity.
    + rewrite IH, map_app, concat_app. simpl map. simpl List.concat.
      rewrite app_nil_r, (split_word w Hw), <- !app_assoc. reflexivity.
Qed.

(** X1. Wrapping loses, adds, splits, merges or reorders no word: the
    words of the emitted lines, read line after line, are the words of the
    text. *)
Theorem wrap_text_keeps_words (text : pystr) :
  List.concat (map split (wrap_text env text f max_width)) = split text.
Proof.
  unfold wrap_text. rewrite wrap_words_kept.
  - reflexivity.
  - apply Forall_forall. intros w. apply split_wordy.
Qed.

Lemma wrap_lines_joined (ws lines : list pystr) (cur : pystr) :
  Forall wordy ws ->
  (forall l, In l lines -> l = join [space] (split l)) ->
  cur = join [space] (split cur) ->
  forall l,
    In l (wrap_finish (fold_left (wrap_step env f max_width) ws (lines, cur))) ->
    l = join [space] (split l).
Proof.
  intros Hws. revert lines cur.
  induction Hws as [|w ws Hw Hws IH]; intros lines cur Hl Hc l Hin.
  - rewrite wrap_fold_nil in Hin. destruct (truthy cur); [|now apply Hl].
    apply in_app_or in Hin. destruct Hin as [Hin|[<-|[]]]; auto.
  - rewrite wrap_fold_cons in Hin.
    assert (Hword : w = join [space] (split w)).
    { rewrite (split_word w Hw). reflexivity. }
    destruct (text_right env f
                (if negb (truthy cur) then w else cur ++ [space] ++ w)
              <=? max_width).
    + apply (IH lines _ Hl) in Hin; [exact Hin|].
      rewrite (test_line_split cur w Hw).
      destruct cur as [|c cur]; simpl negb; cbv iota; [reflexivity|].
      rewrite join_snoc.
      * rewrite <- Hc. reflexivity.
      * intros E. rewrite E in Hc. discriminate.
    + apply (IH (lines ++ [cur]) w) in Hin; auto.
      intros l' Hl'. apply in_app_or in Hl'.
      destruct Hl' as [Hl'|[<-|[]]]; auto.
Qed.

(** X2. Every emitted line is its own words joined by single spaces: no
    leading, trailing or doubled whitespace, whatever the text had. *)
Theorem wrap_text_lines_single_spaced (text line : pystr) :
  In line (wrap_text env text f max_width) ->
  line = join [space] (split line).
Proof.
  unfold wrap_text. apply wrap_lines_joined.
  - apply Forall_forall. intros w. apply split_wordy.
  - intros l [].
  - reflexivity.
Qed.

Lemma wrap_prefix (ws pre lines : list pystr) (cur : pystr) :
  wrap_finish (fold_left (wrap_step env f max_width) ws (pre ++ lines, cur)) =
  pre ++ wrap_finish (fold_left (wrap_step env f max_width) ws (lines, cur)).
Proof.
  revert lines cur. induction ws as [|w ws IH]; intros lines cur.
  - rewrite !wrap_fold_nil. destruct (truthy cur); [|reflexivity].
    now rewrite app_assoc.
  - rewrite !wrap_fold_cons.
    destruct (text_right env f
                (if negb (truthy cur) then w else cur ++ [space] ++ w)
              <=? max_width).
    + apply IH.
    + rewrite <- app_assoc. apply IH.
Qed.

Lemma wrap_nonempty_lines (ws lines : list pystr) (cur : pystr) :
  (forall w, In w ws -> w <> []) ->
  Forall (fun l => l <> []) lines -> cur <> [] ->
  let out := wrap_finish (fold_left (wrap_step env f max_width) ws (lines, cur))
  in Forall (fun l => l <> []) out /\ out <> [].
Proof.
  revert lines cur. induction ws as [|w ws IH]; intros lines cur Hws Hl Hc.
  - cbv zeta. rewrite wrap_fold_nil.
    destruct cur as [|c cur]; [congruence|]. simpl truthy. cbv iota. split.
    + apply Forall_app. split; [exact Hl|]. repeat constructor. discriminate.
    + intros E. apply app_eq_nil in E. destruct E as [_ E]. discriminate.
  - cbv zeta. rewrite wrap_fold_cons.
    assert (Hw : w <> []) by (apply Hws; now left).
    assert (Hws' : forall w', In w' ws -> w' <> [])
      by (intros w' H; apply Hws; now right).
    destruct (text_right env f
                (if negb (truthy cur) then w else cur ++ [space] ++ w)
              <=? max_width).
    + apply IH; auto. now apply test_line_nonempty.
    + apply IH; auto. apply Forall_app. split; [exact Hl|].
      repeat constructor. exact Hc.
Qed.

Lemma wrap_first_line_cases (text : pystr) :
  match split text with
  | [] => wrap_text env text f max_width = []
  | first :: _ =>
      if text_right env f first <=? max_width
      then Forall (fun l => l <> []) (wrap_text env text f max_width) /\
           wrap_text env text f max_width <> []
      else exists rest,
             wrap_text env text f max_width = [] :: rest /\
             Forall (fun l => l <> []) rest /\ rest <> []
  end.
Proof.
  unfold wrap_text.
  pose proof (fun w => split_nonempty text w) as Hne.
  destruct (split text) as [|w ws]; [reflexivity|].
  rewrite wrap_fold_cons. simpl truthy. simpl negb. cbv iota.
  assert (Hw : w <> []) by (apply Hne; now left).
  assert (Hws : forall w', In w' ws -> w' <> [])
    by (intros w' H; apply Hne; now right).
  destruct (text_right env f w <=? max_width).
  - apply wrap_nonempty_lines; auto.
  - change ([] ++ [[]]) with ([[]] ++ @nil pystr). rewrite wrap_prefix.
    eexists. split; [reflexivity|].
    apply wrap_nonempty_lines; auto.
Qed.

Lemma wrap_nil_blank (text : pystr) :
  wrap_text env text f max_width = [] <-> blank text = true.
Proof.
  rewrite <- split_nil_iff.
  pose proof (wrap_first_line_cases text) as H.
  destruct (split text) as [|w ws].
  - tauto.
  - split; [|discriminate]. intros E. exfalso.
    destruct (text_right env f w <=? max_width).
    + destruct H as [_ H]. contradiction.
    + destruct H as (rest & H & _). congruence.
Qed.

(** X3. The only empty line [wrap_text] can emit is the first one, and it
    does so exactly when the first word of the text measures wider than
    [max_width]: the still empty current line is appended before the word.
    Every other line has at least one character. *)
Theorem wrap_text_empty_first_line (text : pystr) :
  match split text with
  | [] => wrap_text env text f max_width = []
  | first :: _ =>
      if text_right env f first <=? max_width
      then Forall (fun l => l <> []) (wrap_text env text f max_width) /\
           wrap_text env text f max_width <> []
      else exists rest,
             wrap_text env text f max_width = [] :: rest /\
             Forall (fun l => l <> []) rest /\ rest <> []
  end.
Proof. exact (wrap_first_line_cases text). Qed.

(** X4. [wrap_text] returns no line at all exactly for a text without any
    non-whitespace character (the empty text included). *)
Theorem wrap_text_nil_iff_blank (text : pystr) :
  wrap_text env text f max_width = [] <-> blank text = true.
Proof. exact (wrap_nil_blank text). Qed.

End WrapMore.

Lemma wrap_text_lines_single_spaced_witness :
  of_ascii "two" = join [space] (split (of_ascii "two")).
Proof.
  apply (wrap_text_lines_single_spaced (Fixture.fixed_pitch true ApiFailure)
           (TrueType 23) 100 (of_ascii "  one two   three ")).
  vm_compute. right. left. reflexivity.
Defined.

(** ** More on the sizing search *)

Section FitMore.

Variable env : environment.

(** X5. A layout that is higher than the box comes from the path after
    the search only: it is the TrueType layout at size 18, and each of the
    sizes 23, 21 and 19 was tried and was too high.  Any other layout
    returned fits the box height. *)
Theorem fit_overflow_only_at_minimum (t : pystr) (w h : Z) (l : layout) :
  fit env t w h = Ok l ->
  total_height l <= h \/
  (l = measure_block env (TrueType 18) t w /\
   h < total_height (tried env t w 23) /\
   h < total_height (tried env t w 21) /\
   h < total_height (tried env t w 19)).
Proof.
  unfold fit, tried. rewrite shrink_loop_from_23. cbv zeta.
  destruct (total_height (measure_block env (load_font_or_default env 23) t w)
            <=? h) eqn:E23;
    [intros [= <-]; left; now apply Z.leb_le|].
  destruct (total_height (measure_block env (load_font_or_default env 21) t w)
            <=? h) eqn:E21;
    [intros [= <-]; left; now apply Z.leb_le|].
  destruct (total_height (measure_block env (load_font_or_default env 19) t w)
            <=? h) eqn:E19;
    [intros [= <-]; left; now apply Z.leb_le|].
  destruct (truetype_loads env min_font_size); [|discriminate].
  intros [= <-]. right. rewrite Z.leb_gt in E23, E21, E19. auto.
Qed.

(** X6. The sizing search raises in one situation only: none of the sizes
    23, 21 and 19 fits and the font file does not load at size 18; the
    error is the font loader's. *)
Theorem fit_raises_iff (t : pystr) (w h : Z) (e : exn) :
  fit env t w h = Raise e <->
  (e = OSError /\
   truetype_loads env 18 = false /\
   h < total_height (tried env t w 23) /\
   h < total_height (tried env t w 21) /\
   h < total_height (tried env t w 19)).
Proof.
  unfold fit, tried. rewrite shrink_loop_from_23. cbv zeta.
  change min_font_size with 18.
  destruct (total_height (measure_block env (load_font_or_default env 23) t w)
            <=? h) eqn:E23;
    [apply Z.leb_le in E23; split; [discriminate | lia]|].
  destruct (total_height (measure_block env (load_font_or_default env 21) t w)
            <=? h) eqn:E21;
    [apply Z.leb_le in E21; split; [discriminate | lia]|].
  destruct (total_height (measure_block env (load_font_or_default env 19) t w)
            <=? h) eqn:E19;
    [apply Z.leb_le in E19; split; [discriminate | lia]|].
  rewrite Z.leb_gt in E23, E21, E19.
  destruct (truetype_loads env 18).
  - split; [discriminate | intros (_ & H & _); discriminate].
  - split; [intros [= <-]; auto | intros (-> & _); reflexivity].
Qed.

(** X7. With a font file that loads, a higher box never gets a smaller
    font: the size chosen for [h'] is at least the size chosen for [h]
    when [h <= h']. *)
Theorem fit_taller_box_no_smaller_font (t : pystr) (w h h' : Z) :
  (forall s, truetype_loads env s = true) ->
  h <= h' ->
  exists l l' s s',
    fit env t w h = Ok l /\ fit env t w h' = Ok l' /\
    chosen l = TrueType s /\ chosen l' = TrueType s' /\ s <= s'.
Proof.
  intros Hload Hh. unfold fit. rewrite !shrink_loop_from_23. cbv zeta.
  unfold load_font_or_default. rewrite !Hload.
  destruct (total_height (measure_block env (TrueType 23) t w) <=? h) eqn:A23;
  destruct (total_height (measure_block env (TrueType 23) t w) <=? h') eqn:B23;
  destruct (total_height (measure_block env (TrueType 21) t w) <=? h) eqn:A21;
  destruct (total_height (measure_block env (TrueType 21) t w) <=? h') eqn:B21;
  destruct (total_height (measure_block env (TrueType 19) t w) <=? h) eqn:A19;
  destruct (total_height (measure_block env (TrueType 19) t w) <=? h') eqn:B19;
  rewrite ?Z.leb_le, ?Z.leb_gt in *; try lia;
  do 4 eexists; repeat (split; [reflexivity|]); simpl; unfold min_font_size; lia.
Qed.

End FitMore.

Lemma fit_overflow_only_at_minimum_witness :
  total_height
    (measure_block (Fixture.fixed_pitch true ApiFailure) (TrueType 21)
       Fixture.la 1000) <= 21 \/
  (measure_block (Fixture.fixed_pitch true ApiFailure) (TrueType 21)
     Fixture.la 1000 =
   measure_block (Fixture.fixed_pitch true ApiFailure) (TrueType 18)
     Fixture.la 1000 /\
   21 < total_height
          (measure_block (Fixture.fixed_pitch true ApiFailure)
             (load_font_or_default (Fixture.fixed_pitch true ApiFailure) 23)
             Fixture.la 1000) /\
   21 < total_height
          (measure_block (Fixture.fixed_pitch true ApiFailure)
             (load_font_or_default (Fixture.fixed_pitch true ApiFailure) 21)
             Fixture.la 1000) /\
   21 < total_height
          (measure_block (Fixture.fixed_pitch true ApiFailure)
             (load_font_or_default (Fixture.fixed_pitch true ApiFailure) 19)
             Fixture.la 1000)).
Proof.
  apply (fit_overflow_only_at_minimum (Fixture.fixed_pitch true ApiFailure)
           Fixture.la 1000 21).
  vm_compute. reflexivity.
Defined.

Lemma fit_taller_box_no_smaller_font_witness :
  exists l l' s s',
    fit (Fixture.fixed_pitch true ApiFailure) Fixture.la 1000 19 = Ok l /\
    fit (Fixture.fixed_pitch true ApiFailure) Fixture.la 1000 22 = Ok l' /\
    chosen l = TrueType s /\ chosen l' = TrueType s' /\ s <= s'.
Proof.
  apply (fit_taller_box_no_smaller_font (Fixture.fixed_pitch true ApiFailure)
           Fixture.la 1000 19 22).
  - intros s. reflexivity.
  - lia.
Defined.

(** ** More on the validator *)

Lemma starts_with_iff (p s : pystr) :
  starts_with p s = true <-> exists post, s = p ++ post.
Proof.
  revert s. induction p as [|a p IH]; intros s.
  - simpl. split; [intros _; now exists s | reflexivity].
  - destruct s as [|b s]; simpl.
    + split; [discriminate | intros [post H]; discriminate].
    + rewrite andb_true_iff, N.eqb_eq, IH. split.
      * intros [-> [post ->]]. now exists post.
      * intros [post [= -> ->]]. split; [reflexivity | now exists post].
Qed.

Lemma contains_iff (p s : pystr) :
  contains p s = true <-> exists pre post, s = pre ++ p ++ post.
Proof.
  induction s as [|c s IH].
  - simpl. rewrite orb_false_r, starts_with_iff. split.
    + intros [post H]. now exists [], post.
    + intros (pre & post & H). destruct pre; [now exists post|discriminate].
  - change (contains p (c :: s))
      with (starts_with p (c :: s) || contains p s)%bool.
    rewrite orb_true_iff, starts_with_iff, IH. split.
    + intros [[post H]|(pre & post & H)].
      * now exists [], post.
      * exists (c :: pre), post. simpl. now rewrite H.
    + intros (pre & post & H). destruct pre as [|d pre].
      * left. now exists post.
      * right. injection H as _ H. now exists pre, post.
Qed.

Section ValidateMore.

Variable env : environment.

(** X8. The validator rejects for a phrase exactly when the lower-cased
    translation has one of the entries of [invalid_phrases], as written in
    the list, as a contiguous substring. *)
Theorem validate_rejects_substring (t : pystr) :
  validate env t = RejectedPhrase <->
  exists p pre post,
    In p invalid_phrases /\ lower env t = pre ++ p ++ post.
Proof.
  rewrite validate_rejects_phrase. split.
  - intros (p & Hp & Hc). apply contains_iff in Hc.
    destruct Hc as (pre & post & H). now exists p, pre, post.
  - intros (p & pre & post & Hp & H). exists p. split; [exact Hp|].
    apply contains_iff. now exists pre, post.
Qed.

(** X9. The text the validator hands to the layout is the translation
    without its ASCII letters, trimmed: it is not empty, holds no ASCII
    letter, starts and ends with a non-whitespace character, and wraps
    into at least one line. *)
Theorem validate_accepted_text (t s : pystr) :
  validate env t = Accepted s ->
  s = strip (remove_ascii_letters t) /\
  s <> [] /\
  (forall c, In c s -> is_ascii_letter c = false) /\
  strip s = s /\
  (forall f w, wrap_text env s f w <> []).
Proof.
  intros H. pose proof (validate_accepts_stripped env t s H) as Hs.
  assert (Hne : s <> []).
  { unfold validate in H.
    destruct (existsb _ invalid_phrases); [discriminate|].
    fold (strip (remove_ascii_letters t)) in H. rewrite <- Hs in H.
    destruct s; [discriminate H | discriminate]. }
  split; [exact Hs|]. split; [exact Hne|]. split; [|split].
  - intros c Hc. rewrite Hs in Hc. apply strip_incl in Hc.
    unfold remove_ascii_letters in Hc. apply filter_In in Hc.
    destruct Hc as [_ Hc]. now apply negb_true_iff in Hc.
  - rewrite Hs. apply strip_idempotent.
  - intros f w E. apply wrap_nil_blank in E.
    destruct s as [|c u] eqn:Es; [congruence|].
    assert (Hc : isspace_char c = false)
      by (apply (strip_head (remove_ascii_letters t) c u); now rewrite <- Hs).
    simpl in E. rewrite Hc in E. discriminate.
Qed.

Lemma forallb_strip (P : char -> bool) (s : pystr) :
  forallb P s = true -> forallb P (strip s) = true.
Proof.
  rewrite !forallb_forall. intros H c Hc. apply H. now apply strip_incl.
Qed.

Lemma letters_removed_blank (s : pystr) :
  forallb (fun c => is_ascii_letter c || isspace_char c)%bool s = true ->
  blank (remove_ascii_letters s) = true.
Proof.
  unfold blank, remove_ascii_letters. rewrite !forallb_forall.
  intros H c Hc. apply filter_In in Hc. destruct Hc as [Hin Hc].
  apply negb_true_iff in Hc. specialize (H c Hin). rewrite Hc in H.
  exact H.
Qed.

(** A text of ASCII letters and whitespace is never accepted. *)
Lemma validate_latin_rejected (t : pystr) :
  forallb (fun c => is_ascii_letter c || isspace_char c)%bool t = true ->
  validate env t = RejectedPhrase \/ validate env t = RejectedEmpty.
Proof.
  intros H. unfold validate.
  destruct (existsb _ invalid_phrases); [now left|]. right.
  rewrite (strip_blank _ (letters_removed_blank t H)). reflexivity.
Qed.

Lemma translate_openl_failure (t : pystr) (w : world) :
  chat_completion env (api_calls w) t = ApiFailure ->
  translate_openl env t w =
  (Ok t, {| canvas := canvas w;
            console := console w ++ [ErrorTranslating t];
            api_calls := S (api_calls w) |}).
Proof.
  intros H. unfold translate_openl, bind, call_service. rewrite H.
  reflexivity.
Qed.

Lemma translate_openl_success (t content : pystr) (w : world) :
  chat_completion env (api_calls w) t = Responded content ->
  translate_openl env t w =
  (Ok (strip content), {| canvas := canvas w;
                          console := console w;
                          api_calls := S (api_calls w) |}).
Proof.
  intros H. unfold translate_openl, bind, call_service. rewrite H.
  reflexivity.
Qed.

(** X10. When the service call fails for a region whose text has only
    ASCII letters and whitespace, the region is left blank: the source
    text comes back, loses all its letters in validation and is rejected,
    so nothing is drawn; no error is raised. *)
Theorem failed_translation_of_latin_text_draws_nothing
  (box : region) (w : world) :
  chat_completion env (api_calls w) (strip (text box)) = ApiFailure ->
  forallb (fun c => is_ascii_letter c || isspace_char c)%bool (text box)
    = true ->
  fst (draw_box env box w) = Ok tt /\
  canvas (snd (draw_box env box w)) = canvas w.
Proof.
  intros Hfail Hlatin. unfold draw_box.
  destruct (negb (truthy (strip (text box))) || isspace (strip (text box)))%bool;
    [split; reflexivity|].
  destruct (bbox box) as [[[x0 y0] x1] y1].
  destruct (too_small _ _); [split; reflexivity|].
  unfold bind. rewrite (translate_openl_failure _ _ Hfail).
  destruct (validate_latin_rejected (strip (text box))
              (forallb_strip _ _ Hlatin)) as [-> | ->];
    split; reflexivity.
Qed.

End ValidateMore.

Lemma validate_accepted_text_witness :
  Fixture.la = strip (remove_ascii_letters (of_ascii " ok " ++ Fixture.la)).
Proof.
  apply (validate_accepted_text (Fixture.fixed_pitch true ApiFailure)
           (of_ascii " ok " ++ Fixture.la) Fixture.la).
  vm_compute. reflexivity.
Defined.

Lemma failed_translation_of_latin_text_draws_nothing_witness :
  fst (draw_box (Fixture.fixed_pitch true ApiFailure) Fixture.hello_region
         Fixture.empty_world) = Ok tt /\
  canvas (snd (draw_box (Fixture.fixed_pitch true ApiFailure)
                 Fixture.hello_region Fixture.empty_world)) = [].
Proof.
  apply (failed_translation_of_latin_text_draws_nothing
           (Fixture.fixed_pitch true ApiFailure) Fixture.hello_region
           Fixture.empty_world); reflexivity.
Defined.

(** ** More on the extractor *)

(** A loop whose body either goes on or raises [e] on a bad element goes
    through a list of good elements, and raises [e] when one is bad. *)
Lemma for_each_good_or_bad {A S : Type} (body : A -> S -> outcome S)
  (good bad : A -> Prop) (e : exn) (l : list A) :
  (forall a s, (good a /\ exists s', body a s = Ok s') \/
               (bad a /\ body a s = Raise e)) ->
  forall s,
    ((forall a, In a l -> good a) /\ exists s', for_each l body s = Ok s') \/
    ((exists a, In a l /\ bad a) /\ for_each l body s = Raise e).
Proof.
  intros Hbody. induction l as [|a l IH]; intros s.
  - left. split; [intros a [] | now exists s].
  - simpl. destruct (Hbody a s) as [[Hg [s' Hs']]|[Hb Hr]].
    + rewrite Hs'. destruct (IH s') as [[Hall Hok]|[[b [Hin Hb]] Hr]].
      * left. split; [|exact Hok]. intros b [<-|Hb]; auto.
      * right. split; [|exact Hr]. exists b. split; [now right | exact Hb].
    + rewrite Hr. right. split; [|reflexivity]. exists a. split; [now left|exact Hb].
Qed.

Section ExtractorMore.

Variable isalnum : char -> bool.

Lemma paragraph_body_good_or_bad (p : paragraph) (acc : list region) :
  (all_vertices p <> [] /\ exists acc', paragraph_body isalnum p acc = Ok acc') \/
  (all_vertices p = [] /\ paragraph_body isalnum p acc = Raise ValueError).
Proof.
  destruct (all_vertices p) as [|v vs] eqn:E.
  - right. split; [reflexivity|]. unfold paragraph_body, paragraph_region.
    rewrite scan_words_spec, E. reflexivity.
  - left. split; [discriminate|]. unfold paragraph_body.
    rewrite paragraph_region_spec by (rewrite E; discriminate).
    destruct (spec_kept isalnum p); eexists; reflexivity.
Qed.

Lemma pages_good_or_bad (pgs : list page) (acc : list region) :
  let run := for_each pgs
               (fun pg => for_each (blocks pg)
                  (fun b => for_each (paragraphs b) (paragraph_body isalnum)))
               acc in
  let ps := flat_map (fun pg => flat_map paragraphs (blocks pg)) pgs in
  ((forall p, In p ps -> all_vertices p <> []) /\ exists out, run = Ok out) \/
  ((exists p, In p ps /\ all_vertices p = []) /\ run = Raise ValueError).
Proof.
  cbv zeta.
  pose proof (fun ps => for_each_good_or_bad (paragraph_body isalnum)
                (fun p => all_vertices p <> []) (fun p => all_vertices p = [])
                ValueError ps paragraph_body_good_or_bad) as Hpar.
  pose proof (fun bs => for_each_good_or_bad
                (fun b => for_each (paragraphs b) (paragraph_body isalnum))
                (fun b => forall p, In p (paragraphs b) -> all_vertices p <> [])
                (fun b => exists p, In p (paragraphs b) /\ all_vertices p = [])
                ValueError bs (fun b s => Hpar (paragraphs b) s)) as Hblk.
  pose proof (for_each_good_or_bad
                (fun pg => for_each (blocks pg)
                   (fun b => for_each (paragraphs b) (paragraph_body isalnum)))
                (fun pg => forall b, In b (blocks pg) ->
                   forall p, In p (paragraphs b) -> all_vertices p <> [])
                (fun pg => exists b, In b (blocks pg) /\
                   exists p, In p (paragraphs b) /\ all_vertices p = [])
                ValueError pgs (fun pg s => Hblk (blocks pg) s) acc) as Hpg.
  destruct Hpg as [[Hall Hok]|[(pg & Hpg & b & Hb & p & Hp & Hbad) Hr]].
  - left. split; [|exact Hok]. intros p Hp.
    apply in_flat_map in Hp. destruct Hp as (pg & Hpg & Hp).
    apply in_flat_map in Hp. destruct Hp as (b & Hb & Hp).
    exact (Hall pg Hpg b Hb p Hp).
  - right. split; [|exact Hr]. exists p. split; [|exact Hbad].
    apply in_flat_map. exists pg. split; [exact Hpg|].
    apply in_flat_map. exists b. now split.
Qed.

(** X11. The three ways [google_ocr] ends.  A non-empty error message of
    the service raises the OCR error, whatever the annotation holds;
    otherwise a paragraph without any vertex anywhere in the tree raises
    [ValueError] and no region at all is returned; otherwise the call
    returns the regions of the paragraphs that pass the noise filter. *)
Theorem google_ocr_outcomes (resp : response) :
  (truthy (error_message resp) = true /\
   google_ocr isalnum resp = Raise (OcrError (error_message resp)))
  \/
  (truthy (error_message resp) = false /\
   (exists p, In p (all_paragraphs resp) /\ all_vertices p = []) /\
   google_ocr isalnum resp = Raise ValueError)
  \/
  (truthy (error_message resp) = false /\
   (forall p, In p (all_paragraphs resp) -> all_vertices p <> []) /\
   google_ocr isalnum resp =
     Ok (map spec_region (filter (spec_kept isalnum) (all_paragraphs resp)))).
Proof.
  unfold google_ocr. destruct (truthy (error_message resp)) eqn:E.
  - left. now split.
  - right. destruct (pages_good_or_bad (pages resp) []) as [[Hall _]|[Hbad Hr]].
    + right. split; [reflexivity|]. split; [exact Hall|].
      now rewrite for_each_pages.
    + left. split; [reflexivity|]. split; [exact Hbad | exact Hr].
Qed.

(** X12. The text of an emitted region is not empty, is already trimmed
    and is therefore never skipped by the test [not text or
    text.isspace()] at the head of the draw pass. *)
Theorem emitted_text_passes_draw_guard (p : paragraph) (r : region) :
  paragraph_region isalnum p = Ok (Some r) ->
  text r <> [] /\
  strip (text r) = text r /\
  (negb (truthy (strip (text r))) || isspace (strip (text r)))%bool = false.
Proof.
  intros H. pose proof (paragraph_region_vertices _ _ _ H) as Hv.
  rewrite (paragraph_region_spec isalnum p Hv) in H.
  destruct (spec_kept isalnum p) eqn:K; [|discriminate].
  injection H as <-.
  assert (Hne : spec_text p <> []).
  { apply spec_kept_iff in K. destruct K as [_ (c & Hc & _)].
    intros E. rewrite E in Hc. contradiction. }
  assert (Hs : strip (spec_text p) = spec_text p)
    by (apply strip_idempotent).
  simpl text. split; [exact Hne|]. split; [exact Hs|].
  apply stripped_not_blank. now rewrite Hs.
Qed.

(** X13. The box of an emitted region is well formed, [x0 <= x1] and
    [y0 <= y1], whatever the sign of the coordinates, and a region whose
    text has at most 6 characters covers an area of at most 40000. *)
Theorem emitted_bbox_ordered (p : paragraph) (r : region) :
  paragraph_region isalnum p = Ok (Some r) ->
  exists x0 y0 x1 y1,
    bbox r = (x0, y0, x1, y1) /\ x0 <= x1 /\ y0 <= y1 /\
    0 <= bbox_area (bbox r) /\
    (len (text r) <= 6 -> bbox_area (bbox r) <= 40000).
Proof.
  intros H.
  destruct (emitted_bbox_extrema isalnum p r H)
    as (x0 & y0 & x1 & y1 & Hb & [Ix0 Lx0] & [Iy0 Ly0] & [Ix1 Lx1] & [Iy1 Ly1]).
  exists x0, y0, x1, y1. split; [exact Hb|].
  pose proof (Lx0 _ Ix1). pose proof (Ly0 _ Iy1).
  split; [lia|]. split; [lia|].
  pose proof (paragraph_region_vertices _ _ _ H) as Hv.
  rewrite (paragraph_region_spec isalnum p Hv) in H.
  destruct (spec_kept isalnum p) eqn:K; [|discriminate].
  injection H as <-.
  change (bbox (spec_region p)) with (spec_bbox p) in *.
  change (text (spec_region p)) with (spec_text p).
  apply spec_kept_iff in K. destruct K as [K _].
  rewrite Hb in *. unfold bbox_area in *. split; [nia|].
  intros Hlen. lia.
Qed.

End ExtractorMore.

Lemma emitted_text_passes_draw_guard_witness :
  text Fixture.hello_region <> [] /\
  strip (text Fixture.hello_region) = text Fixture.hello_region /\
  (negb (truthy (strip (text Fixture.hello_region)))
   || isspace (strip (text Fixture.hello_region)))%bool = false.
Proof.
  apply (emitted_text_passes_draw_guard Fixture.ascii_alnum
           Fixture.hello_world Fixture.hello_region).
  vm_compute. reflexivity.
Defined.

Lemma emitted_bbox_ordered_witness :
  exists x0 y0 x1 y1,
    bbox Fixture.hello_region = (x0, y0, x1, y1) /\ x0 <= x1 /\ y0 <= y1 /\
    0 <= bbox_area (bbox Fixture.hello_region) /\
    (len (text Fixture.hello_region) <= 6 ->
     bbox_area (bbox Fixture.hello_region) <= 40000).
Proof.
  apply (emitted_bbox_ordered Fixture.ascii_alnum Fixture.hello_world).
  vm_compute. reflexivity.
Defined.

(** ** More on the renderer *)

Lemma fit_raise_oserror (env : environment) (t : pystr) (w h : Z) (e : exn) :
  fit env t w h = Raise e -> e = OSError /\ truetype_loads env 18 = false.
Proof.
  unfold fit. rewrite shrink_loop_from_23. cbv zeta.
  change min_font_size with 18.
  repeat match goal with
         | |- context [if ?c then _ else _] => destruct c
         end; try discriminate.
  intros [= <-]. now split.
Qed.

Lemma eb_ret {A : Type} (a : A) : effect_bound 0 (ret a).
Proof.
  intros w. simpl. split; [lia|]. split; [|discriminate].
  exists []. rewrite app_nil_r. auto.
Qed.

Lemma eb_paint (op : canvas_op) : effect_bound 0 (paint op).
Proof.
  intros w. simpl. split; [lia|]. split; [|discriminate].
  exists []. rewrite app_nil_r. auto.
Qed.

Lemma eb_print (m : message) :
  m <> TranslatedAndSaved -> effect_bound 0 (print m).
Proof.
  intros Hm w. simpl. split; [lia|]. split; [|discriminate].
  exists [m]. split; [reflexivity|]. intros [H|[]]. congruence.
Qed.

Lemma eb_call_service (env : environment) (t : pystr) :
  effect_bound 1 (call_service env t).
Proof.
  intros w. simpl. split; [lia|]. split; [|discriminate].
  exists []. rewrite app_nil_r. auto.
Qed.

Lemma eb_fit (env : environment) (t : pystr) (mw mh : Z) :
  effect_bound 0 (lift (fit env t mw mh)).
Proof.
  intros w. simpl. split; [lia|]. split.
  - exists []. rewrite app_nil_r. auto.
  - intros e H. now apply fit_raise_oserror in H.
Qed.

Lemma eb_bind {A B : Type} (n k : nat) (m : M A) (g : A -> M B) :
  effect_bound n m -> (forall a, effect_bound k (g a)) ->
  effect_bound (n + k) (bind m g).
Proof.
  intros Hm Hg w. unfold bind.
  destruct (Hm w) as (Hc & (msgs & Hmsg & Hno) & Hr).
  destruct (m w) as [[a|e] w1]; simpl in *.
  - destruct (Hg a w1) as (Hc2 & (msgs2 & Hmsg2 & Hno2) & Hr2).
    split; [lia|]. split; [|exact Hr2].
    exists (msgs ++ msgs2). rewrite Hmsg2, Hmsg, app_assoc.
    split; [reflexivity|]. intros H. apply in_app_or in H. tauto.
  - split; [lia|]. split; [now exists msgs|].
    intros e0 [= <-]. now apply Hr.
Qed.

Lemma eb_weaken {A : Type} (n k : nat) (m : M A) :
  (n <= k)%nat -> effect_bound n m -> effect_bound k m.
Proof.
  intros Hle Hm w. destruct (Hm w) as (Hc & Hmsg & Hr).
  split; [lia|]. now split.
Qed.

Section RendererMore.

Variable env : environment.

Lemma eb_translate_openl (t : pystr) : effect_bound 1 (translate_openl env t).
Proof.
  unfold translate_openl. apply (eb_bind 1 0); [apply eb_call_service|].
  intros [content|].
  - apply eb_ret.
  - apply (eb_bind 0 0); [apply eb_print; discriminate | intros _; apply eb_ret].
Qed.

Lemma eb_draw_lines (lines : list pystr) (f : font) (x0 mw lh y : Z) :
  effect_bound 0 (draw_lines env lines f x0 mw lh y).
Proof.
  revert y. induction lines as [|line rest IH]; intros y; simpl.
  - apply eb_ret.
  - apply (eb_bind 0 0); [apply eb_paint | intros _; apply IH].
Qed.

Lemma eb_draw_box (box : region) : effect_bound 1 (draw_box env box).
Proof.
  unfold draw_box.
  destruct (negb (truthy (strip (text box))) || isspace (strip (text box)))%bool;
    [apply (eb_weaken 0); [lia | apply eb_ret]|].
  destruct (bbox box) as [[[x0 y0] x1] y1].
  destruct (too_small _ _); [apply (eb_weaken 0); [lia | apply eb_ret]|].
  apply (eb_bind 1 0); [apply eb_translate_openl|].
  intros translated. destruct (validate env translated).
  - apply (eb_bind 0 0); [apply eb_fit | intros l; apply eb_draw_lines].
  - apply eb_print. discriminate.
  - apply eb_print. discriminate.
Qed.

Lemma eb_iter_draw (boxes : list region) :
  effect_bound (List.length boxes) (iter boxes (draw_box env)).
Proof.
  induction boxes as [|box rest IH]; simpl.
  - apply eb_ret.
  - apply (eb_bind 1 (List.length rest)); [apply eb_draw_box | intros _; exact IH].
Qed.

(** A run, with its first pass done. *)
Lemma run_unfold (boxes : list region) (w : world) :
  erase_sentences_from_image env boxes w =
  match iter boxes (draw_box env)
          {| canvas := map erased_rectangle boxes;
             console := console w; api_calls := api_calls w |} with
  | (Ok _, w2) => print TranslatedAndSaved w2
  | (Raise e, w2) => (Raise e, w2)
  end.
Proof.
  unfold erase_sentences_from_image, bind at 1, open_image.
  unfold bind at 1. rewrite iter_erase_paints. unfold bind. reflexivity.
Qed.

(** What a run does besides painting. *)
Lemma run_effects (boxes : list region) (w : world) :
  let r := erase_sentences_from_image env boxes w in
  (api_calls w <= api_calls (snd r) <= api_calls w + List.length boxes)%nat /\
  exists msgs,
    ~ In TranslatedAndSaved msgs /\
    ((fst r = Ok tt /\
      console (snd r) = console w ++ msgs ++ [TranslatedAndSaved]) \/
     (fst r = Raise OSError /\ console (snd r) = console w ++ msgs)).
Proof.
  cbv zeta. rewrite run_unfold.
  set (w1 := {| canvas := map erased_rectangle boxes;
                console := console w; api_calls := api_calls w |}).
  destruct (eb_iter_draw boxes w1) as (Hc & (msgs & Hmsg & Hno) & Hr).
  destruct (iter boxes (draw_box env) w1) as [[[]|e] w2]; simpl in *.
  - split; [exact Hc|]. exists msgs. split; [exact Hno|]. left.
    split; [reflexivity|]. rewrite Hmsg, <- app_assoc. reflexivity.
  - split; [exact Hc|]. exists msgs. split; [exact Hno|]. right.
    rewrite (Hr e eq_refl). now split.
Qed.

(** X14. A run asks the translation service at most once per region, and
    never during the erase pass: the count of requests grows by at most the
    number of regions. *)
Theorem at_most_one_request_per_region (boxes : list region) (w : world) :
  (api_calls w
   <= api_calls (snd (erase_sentences_from_image env boxes w))
   <= api_calls w + List.length boxes)%nat /\
  api_calls (snd (iter boxes erase_box w)) = api_calls w.
Proof.
  split; [exact (proj1 (run_effects boxes w))|].
  rewrite iter_erase_paints. reflexivity.
Qed.







End RendererMore.


(** ** Where the lines of a block are drawn *)

Section Geometry.

Variable env : environment.

Lemma draw_lines_from (lines : list pystr) (f : font) (x0 mw lh top : Z)
  (i : nat) (w : world) :
  draw_lines env lines f x0 mw lh (top + Z.of_nat i * (lh + 4)) w =
  (Ok tt,
   {| canvas := canvas w ++
        map (fun kl => placed env f x0 mw lh top (fst kl) (snd kl))
            (combine (seq i (List.length lines)) lines);
      console := console w;
      api_calls := api_calls w |}).
Proof.
  revert i w. induction lines as [|line rest IH]; intros i w.
  - simpl. rewrite app_nil_r. destruct w; reflexivity.
  - simpl draw_lines. unfold bind, paint.
    replace (top + Z.of_nat i * (lh + 4) + lh + 4)
      with (top + Z.of_nat (S i) * (lh + 4)) by lia.
    rewrite IH. simpl. rewrite <- app_assoc. reflexivity.
Qed.

Lemma draw_lines_closed (lines : list pystr) (f : font)
  (x0 mw lh top : Z) (w : world) :
  draw_lines env lines f x0 mw lh top w =
  (Ok tt,
   {| canvas := canvas w ++ placed_block env f x0 mw lh top lines;
      console := console w;
      api_calls := api_calls w |}).
Proof.
  replace top with (top + Z.of_nat 0 * (lh + 4)) at 1 by lia.
  apply draw_lines_from.
Qed.

(** X17. [draw_lines] paints exactly one text per line and nothing else,
    never raises, and draws line [k] (from 0) at
    [y = top + k * (line_height + 4)] and
    [x = x0 + (max_width - width) div 2], in black, with the given font. *)
Theorem draw_lines_positions (lines : list pystr) (f : font)
  (x0 mw lh top : Z) (w : world) :
  draw_lines env lines f x0 mw lh top w =
  (Ok tt,
   {| canvas := canvas w ++ placed_block env f x0 mw lh top lines;
      console := console w;
      api_calls := api_calls w |}).
Proof. apply draw_lines_closed. Qed.

Lemma half_bounds (d : Z) : 0 <= d -> 0 <= d / 2 /\ 0 <= d - 2 * (d / 2) <= 1.
Proof.
  intros Hd. pose proof (Z.div_mod d 2 ltac:(lia)) as E.
  pose proof (Z.mod_pos_bound d 2 ltac:(lia)) as B.
  assert (0 <= d / 2) by (apply Z.div_pos; lia). lia.
Qed.

Lemma half_gap (d : Z) : 0 <= d / 2 + d / 2 - d + 1 <= 1.
Proof.
  pose proof (Z.div_mod d 2 ltac:(lia)) as E.
  pose proof (Z.mod_pos_bound d 2 ltac:(lia)) as B. lia.
Qed.

(** X18. A block that fits is drawn inside its box.  When the block
    height [lh * n + (n - 1) * 4] is at most [mh] and the line height is
    not negative, every line drawn from the centred top lies between [y0]
    and [y0 + mh], the space above and below the block differ by at most
    one pixel, and every line whose width is at most [mw] lies between
    [x0] and [x0 + mw] with left and right margins that differ by at most
    one pixel. *)
Theorem block_drawn_inside_box (lines : list pystr) (f : font)
  (x0 y0 mw mh lh : Z) (w : world) :
  let n := Z.of_nat (List.length lines) in
  let th := lh * n + (n - 1) * 4 in
  let top := y0 + (mh - th) / 2 in
  0 <= lh -> th <= mh ->
  exists ops,
    canvas (snd (draw_lines env lines f x0 mw lh top w)) = canvas w ++ ops /\
    List.length ops = List.length lines /\
    0 <= (y0 + mh - (top + th)) - (top - y0) <= 1 /\
    forall op, In op ops ->
      exists x y line,
        op = Text x y line Black f /\ In line lines /\
        y0 <= y /\ y + lh <= y0 + mh /\
        (text_right env f line <= mw ->
         x0 <= x /\ x + text_right env f line <= x0 + mw /\
         0 <= (x0 + mw - (x + text_right env f line)) - (x - x0) <= 1).
Proof.
  cbv zeta. intros Hlh Hfit.
  set (n := Z.of_nat (List.length lines)) in *.
  set (th := lh * n + (n - 1) * 4) in *.
  rewrite draw_lines_closed. unfold placed_block. simpl canvas.
  eexists. split; [reflexivity|].
  destruct (half_bounds (mh - th) ltac:(lia)) as [Hh1 Hh2].
  split; [now rewrite length_map, length_combine, length_seq, Nat.min_id|].
  split; [lia|].
  intros op Hop. apply in_map_iff in Hop. destruct Hop as ([k line] & <- & Hkl).
  pose proof (in_combine_l _ _ _ _ Hkl) as Hk. apply in_seq in Hk.
  pose proof (in_combine_r _ _ _ _ Hkl) as Hline.
  simpl fst. simpl snd. unfold placed.
  do 3 eexists. split; [reflexivity|]. split; [exact Hline|].
  assert (Hkn : Z.of_nat k <= n - 1) by (unfold n; lia).
  assert (0 <= Z.of_nat k) by lia.
  split; [nia|]. split; [unfold th in *; nia|].
  intros Hw. destruct (half_bounds (mw - text_right env f line) ltac:(lia)).
  lia.
Qed.

(** X19. The accepted path of the draw pass.  For a region that passes
    both guards, whose translation the service returns and the validator
    accepts, and for which the sizing search returns a layout, the draw
    pass paints the reshaped lines of that layout, with its font, from the
    vertically centred top of the padded box, makes one service request
    and prints nothing. *)
Theorem accepted_region_is_drawn (box : region) (w : world)
  (x0 y0 x1 y1 : Z) (content s : pystr) (l : layout) :
  let px0 := Z.max 0 (x0 - 12) in
  let py0 := Z.max 0 (y0 - 10) in
  let mw := x1 + 12 - px0 in
  let mh := y1 + 10 - py0 in
  bbox box = (x0, y0, x1, y1) ->
  (negb (truthy (strip (text box))) || isspace (strip (text box)))%bool = false ->
  too_small mw mh = false ->
  chat_completion env (api_calls w) (strip (text box)) = Responded content ->
  validate env (strip content) = Accepted s ->
  fit env s mw mh = Ok l ->
  draw_box env box w =
  (Ok tt,
   {| canvas := canvas w ++
        placed_block env (chosen l) px0 mw (line_height l)
          (py0 + (mh - total_height l) / 2) (reshaped_lines l);
      console := console w;
      api_calls := S (api_calls w) |}).
Proof.
  cbv zeta. intros Hb Hg Hs Hc Hv Hf. unfold draw_box.
  rewrite Hg, Hb. unfold padding_x, padding_y. rewrite Hs.
  unfold bind at 1. rewrite (translate_openl_success env _ _ _ Hc).
  rewrite Hv. unfold bind, lift. rewrite Hf.
  rewrite draw_lines_closed. reflexivity.
Qed.

End Geometry.

Lemma block_drawn_inside_box_witness :
  exists ops,
    canvas (snd (draw_lines (Fixture.fixed_pitch true ApiFailure)
                   [Fixture.la; Fixture.la] (TrueType 19) 0 100 19
                   (0 + (60 - (19 * 2 + (2 - 1) * 4)) / 2)
                   Fixture.empty_world)) = [] ++ ops /\
    List.length ops = 2%nat.
Proof.
  destruct (block_drawn_inside_box (Fixture.fixed_pitch true ApiFailure)
              [Fixture.la; Fixture.la] (TrueType 19) 0 0 100 60 19
              Fixture.empty_world ltac:(lia) ltac:(simpl; lia))
    as (ops & Hc & Hn & _).
  exists ops. split; [exact Hc | exact Hn].
Defined.

Lemma accepted_region_is_drawn_witness :
  canvas (snd (draw_box (Fixture.fixed_pitch true (Responded Fixture.la))
                 Fixture.hello_region Fixture.empty_world)) =
  [Text 38 13 Fixture.la Black (TrueType 23)].
Proof.
  rewrite (accepted_region_is_drawn
             (Fixture.fixed_pitch true (Responded Fixture.la))
             Fixture.hello_region Fixture.empty_world 10 10 110 40
             Fixture.la Fixture.la
             (measure_block (Fixture.fixed_pitch true (Responded Fixture.la))
                (TrueType 23) Fixture.la 122)); reflexivity.
Defined.

(** ** The batch driver *)


Lemma output_name_app (output_folder : pystr) :
  exists prefix,
    (forall name, output_name output_folder name =
                  prefix ++ of_ascii "translated_" ++ name).
Proof.
  unfold output_name, path_join.
  destruct (negb (truthy output_folder) || ends_with [sep] output_folder)%bool.
  - exists output_folder. reflexivity.
  - exists (output_folder ++ [sep]). intros name.
    rewrite <- app_assoc. reflexivity.
Qed.

(** X20. Two files of a folder never share an output file: the output
    path determines the file name. *)
Theorem output_names_distinct (output_folder n1 n2 : pystr) :
  output_name output_folder n1 = output_name output_folder n2 <-> n1 = n2.
Proof.
  split; [|now intros ->].
  destruct (output_name_app output_folder) as [prefix H].
  rewrite !H. intros E. apply app_inv_head in E.
  now apply app_inv_head in E.
Qed.

Section BatchFacts.

Variable env : environment.
Variable isalnum : char -> bool.
Variable ocr : pystr -> response.
Variable folder_path : pystr.
Variable output_folder : pystr.




End BatchFacts.

(** ** When the size guard of the draw pass fires *)

(** X22. For a box with [x0 <= x1] and [y0 <= y1] (every box the
    extractor emits), the padded box is under 10 pixels wide or high
    exactly when the box lies left of x = -2 or above y = 0; such a region
    is erased but the draw pass leaves the state untouched for it: no
    service request, no text, no message. *)
Theorem size_guard_fires_off_canvas (env : environment) (box : region)
  (w : world) (x0 y0 x1 y1 : Z) :
  bbox box = (x0, y0, x1, y1) -> x0 <= x1 -> y0 <= y1 ->
  (too_small (x1 + padding_x - Z.max 0 (x0 - padding_x))
             (y1 + padding_y - Z.max 0 (y0 - padding_y)) = true
   <-> x1 < -2 \/ y1 < 0) /\
  (x1 < -2 \/ y1 < 0 -> draw_box env box w = (Ok tt, w)).
Proof.
  intros Hb Hx Hy.
  assert (G : too_small (x1 + padding_x - Z.max 0 (x0 - padding_x))
                (y1 + padding_y - Z.max 0 (y0 - padding_y)) = true
              <-> x1 < -2 \/ y1 < 0).
  { unfold too_small, padding_x, padding_y.
    rewrite orb_true_iff, !Z.ltb_lt. lia. }
  split; [exact G|]. intros Hoff. apply G in Hoff.
  unfold draw_box. rewrite Hb.
  destruct (negb (truthy (strip (text box))) || isspace (strip (text box)))%bool;
    [reflexivity|].
  rewrite Hoff. reflexivity.
Qed.

Lemma size_guard_fires_off_canvas_witness :
  draw_box (Fixture.fixed_pitch true (Responded Fixture.la))
    {| text := of_ascii "edge"; bbox := (-40, 5, -8, 30) |}
    Fixture.empty_world = (Ok tt, Fixture.empty_world).
Proof.
  apply (proj2 (size_guard_fires_off_canvas
                  (Fixture.fixed_pitch true (Responded Fixture.la))
                  {| text := of_ascii "edge"; bbox := (-40, 5, -8, 30) |}
                  Fixture.empty_world (-40) 5 (-8) 30
                  eq_refl ltac:(lia) ltac:(lia))).
  left. lia.
Defined.
